(** * cacheHttpClient: lookup, reservation and upload of cache archives

    A shallow embedding of [packages/cache/src/internal/cacheHttpClient.ts].

    - JavaScript numbers that count bytes, ids and status codes are integers
      ([Z]); a [Date] is its [getTime()] value, an integer (invalid dates
      are left out).
    - An optional field or argument is an [option]; truthiness is written out
      ([truthyString]: the empty string is falsy).
    - A promise is the computation it stands for: a value of [M A] carries the
      network calls issued, in order, and the outcome (a value, a thrown error
      or a loop that has not finished within its fuel).
    - The outside world (S3, the cache service, the runner's environment) is a
      record [Env] of total functions: the same request always gets the same
      answer, that is, the backend state does not change during one call.
    - [core.debug], [core.info] and [core.setSecret] only write to the log and
      are left out.
    - What the language and the runtime do themselves is written out where
      the code depends on it: the length that [new Array] takes, the bounds
      that [fs.createReadStream] checks, the order of [Array.prototype.sort]. *)

From Stdlib Require Import ZArith List Ascii String Bool Lia Arith.
From Stdlib Require Import DecimalString.
From Stdlib Require DecimalZ DecimalPos.
Import ListNotations.

Open Scope string_scope.
Open Scope Z_scope.

(** ** Outcomes, events and the computation monad *)

Inductive Res (A : Type) : Type :=
| Ok (a : A)
| Throw (msg : string)
| OutOfFuel.

Arguments Ok {A} a.
Arguments Throw {A} msg.
Arguments OutOfFuel {A}.

(** [ReserveCacheRequest] and [CommitCacheRequest] (contracts). *)
Inductive PostBody : Type :=
| ReserveCacheRequest (key version : string) (cacheSize : option Z)
| CommitCacheRequest (size : Z).

(** The requests this module sends. *)
Inductive NetCall : Type :=
| ListObjectsV2Command (Bucket : string) (ContinuationToken : option string)
| S3Upload (Bucket Key : string) (queueSize partSize : Z)
| AzureUpload (signedUploadURL archivePath : string)
| GetJson (url : string)
| PostJson (url : string) (body : PostBody)
| SendStreamPATCH (url : string) (start end_ : Z).

(** A request is either sent as it is or from inside the retry wrapper, whose
    first argument names the operation. *)
Inductive Event : Type :=
| Direct (c : NetCall)
| Retried (name : string) (c : NetCall).

Definition isRetried (e : Event) : bool :=
  match e with Retried _ _ => true | Direct _ => false end.

Definition isDirectListing (e : Event) : bool :=
  match e with Direct (ListObjectsV2Command _ _) => true | _ => false end.

Definition M (A : Type) : Type := (list Event * Res A)%type.

Definition ret {A} (a : A) : M A := ([], Ok a).
Definition throw {A} (msg : string) : M A := ([], Throw msg).
Definition outOfFuel {A} : M A := ([], OutOfFuel).

Definition bind {A B} (m : M A) (f : A -> M B) : M B :=
  match m with
  | (l, Ok a) => let (l', r) := f a in ((l ++ l')%list, r)
  | (l, Throw e) => (l, Throw e)
  | (l, OutOfFuel) => (l, OutOfFuel)
  end.

Notation "x <- m ;; k" := (bind m (fun x => k))
  (at level 61, m at next level, right associativity).
Notation "m ;;; k" := (bind m (fun _ => k))
  (at level 61, right associativity).

(** [try { m } catch (e) { throw new Error(prefix + e) }] *)
Definition rethrow {A} (wrap : string -> string) (m : M A) : M A :=
  match m with
  | (l, Throw e) => (l, Throw (wrap e))
  | other => other
  end.

Definition events {A} (m : M A) : list Event := fst m.
Definition outcome {A} (m : M A) : Res A := snd m.

(** ** Data *)

(** [number.toString()] and [`${number}`] for an integer. *)
Definition numToString (z : Z) : string := NilZero.string_of_int (Z.to_int z).

(** Truthiness of an optional string: [undefined] and [""] are falsy. *)
Definition truthyString (s : option string) : bool :=
  match s with
  | Some s' => negb (s' =? "")%string
  | None => false
  end.

(** Truthiness of an optional object: only [undefined] is falsy. *)
Definition truthyObject {A} (o : option A) : bool :=
  match o with Some _ => true | None => false end.

(** Truthiness of an optional boolean. *)
Definition truthyBool (b : option bool) : bool :=
  match b with Some true => true | _ => false end.

(** [a === b] on two strings either of which may be [undefined]. *)
Definition strictEq (a b : option string) : bool :=
  match a, b with
  | Some x, Some y => (x =? y)%string
  | None, None => true
  | _, _ => false
  end.

(** [interface _content { Key?: string; LastModified?: Date }].  Of the S3
    [_Object] only these two fields are read, so it gets the same record. *)
Record _content : Type := {
  Key : option string;
  LastModified : option Z
}.

Definition _Object : Type := _content.

Record ListObjectsV2CommandOutput : Type := {
  Contents : option (list _Object);
  IsTruncated : option bool;
  NextContinuationToken : option string
}.

Record S3ClientConfig : Type := {
  region : option string;
  endpoint : option string
}.

(** The fields of [ArtifactCacheEntry] (contracts). *)
Record ArtifactCacheEntry : Type := {
  cacheKey : option string;
  scope : option string;
  cacheVersion : option string;
  creationTime : option string;
  archiveLocation : option string
}.

Record ArtifactCacheList : Type := {
  totalCount : Z;
  artifactCaches : option (list ArtifactCacheEntry)
}.

Inductive CompressionMethod : Type := Gzip | ZstdWithoutLong | Zstd.

Record InternalCacheOptions : Type := {
  compressionMethod : option CompressionMethod;
  enableCrossOsArchive : option bool;
  cacheSize : option Z
}.

Record UploadOptions : Type := {
  useAzureSdk : option bool;
  uploadConcurrency : option Z;
  uploadChunkSize : option Z
}.

Record ReserveCacheResponse : Type := { cacheId : Z }.

(** [TypedResponse<T>] and [ITypedResponseWithError<T>]: the headers are a
    list of pairs. *)
Record TypedResponse (T : Type) : Type := {
  statusCode : Z;
  result : option T;
  headers : list (string * string)
}.

Arguments statusCode {T} _.
Arguments result {T} _.
Arguments headers {T} _.

(** ** The environment *)

Record Env : Type := {
  (** [getCacheServiceURL()] of config *)
  getCacheServiceURL : string;
  (** [core.isDebug()] *)
  isDebug : bool;
  (** [utils.getCacheVersion] of cacheUtils *)
  getCacheVersion :
    list string -> option CompressionMethod -> option bool -> string;
  (** [utils.getArchiveFileSizeInBytes] of cacheUtils, for an archive that exists *)
  getArchiveFileSizeInBytes : string -> Z;
  (** [getUploadOptions] of options *)
  getUploadOptions : option UploadOptions -> UploadOptions;
  encodeURIComponent : string -> string;
  (** [Date.prototype.toString] *)
  dateToString : Z -> string;
  (** what [s3client.send(new ListObjectsV2Command(param))] resolves to or
      rejects with *)
  s3Send : S3ClientConfig -> string -> option string ->
           Res ListObjectsV2CommandOutput;
  (** what [parallelUpload.done()] resolves to or rejects with *)
  s3UploadDone : S3ClientConfig -> string -> string -> Res unit;
  (** [uploadCacheArchiveSDK] of uploadUtils *)
  azureUploadDone : string -> string -> Res unit;
  (** final outcome of the retried requests of the cache service *)
  getCacheEntryResponse : string -> Res (TypedResponse ArtifactCacheEntry);
  listCacheResponse : string -> Res (TypedResponse ArtifactCacheList);
  reserveCacheResponse :
    string -> PostBody -> Res (TypedResponse ReserveCacheResponse);
  commitCacheResponse : string -> PostBody -> Res (TypedResponse unit);
  (** [message.statusCode] of the response to a chunk PATCH *)
  uploadChunkResponse : string -> Z -> Z -> Res (option Z)
}.

(** Modelled from the spec: [isSuccessStatusCode] of requestUtils, which is not
    among the sources; a status is a success when it is 2xx. *)
Definition isSuccessStatusCode (statusCode : option Z) : bool :=
  match statusCode with
  | Some code => (200 <=? code) && (code <? 300)
  | None => false
  end.

(** [s3Options && s3BucketName]: the object store is used when both are
    truthy. *)
Definition objectStore (s3Options : option S3ClientConfig)
    (s3BucketName : option string) : option (S3ClientConfig * string) :=
  match s3Options, s3BucketName with
  | Some o, Some b => if (b =? "")%string then None else Some (o, b)
  | _, _ => None
  end.

(** One request, sent as it is. *)
Definition request {A} (c : NetCall) (r : Res A) : M A := ([Direct c], r).

Definition markRetried (name : string) (e : Event) : Event :=
  match e with
  | Direct c => Retried name c
  | Retried n c => Retried n c
  end.

(** Modelled from the spec: [retryTypedResponse] and [retryHttpClientResponse]
    of requestUtils, which is not among the sources.  The spec's RetryExecutor
    runs the operation until it succeeds or the attempts are used up and then
    surfaces the last error tagged with the operation name.  The attempts of
    one operation are one logged request, marked with the name; the response
    is the final one. *)
Definition retry {A} (name : string) (op : M A) : M A :=
  let (l, r) := op in
  (map (markRetried name) l,
   match r with
   | Throw e => Throw (name ++ " failed: " ++ e)
   | other => other
   end).

Definition retryTypedResponse {A} := @retry A.
Definition retryHttpClientResponse {A} := @retry A.

Section CacheHttpClient.

Variable env : Env.

Definition getCacheApiUrl (resource : string) : M string :=
  let baseUrl := getCacheServiceURL env in
  if (baseUrl =? "")%string then
    throw "Cache Service Url not found, unable to restore cache."
  else
    ret (baseUrl ++ "_apis/artifactcache/" ++ resource).

(** ** Lookup in the bucket *)

(** [matchPrefix.sort(function (i, j) {...})]: the comparator. *)
Definition compareLastModified (i j : _content) : Z :=
  match LastModified i, LastModified j with
  | Some ti, Some tj =>
      if ti =? tj then 0
      else if ti >? tj then -1
      else if ti <? tj then 1
      else 0
  | _, _ => 0
  end.

(** [Array.prototype.sort] with a comparator is stable (ECMAScript 2019); it is
    modelled by a stable insertion sort.  For a consistent comparator every
    stable sort gives this result.  Where the comparator is not consistent
    (an entry without [LastModified] among entries of different times) the
    order is the engine's own, and no statement below rests on it. *)
Fixpoint sortInsert {A} (cmp : A -> A -> Z) (x : A) (l : list A) : list A :=
  match l with
  | [] => [x]
  | y :: l' => if cmp x y >? 0 then y :: sortInsert cmp x l' else x :: y :: l'
  end.

Fixpoint sort {A} (cmp : A -> A -> Z) (l : list A) : list A :=
  match l with
  | [] => []
  | x :: l' => sortInsert cmp x (sort cmp l')
  end.

(** [entry.Key?.startsWith(notPrimaryKey)] *)
Definition keyStartsWith (notPrimaryKey : string) (entry : _content) : bool :=
  match Key entry with
  | Some k => String.prefix notPrimaryKey k
  | None => false
  end.

(** The [for (const entry of entries)] loop of [_searchRestoreKeyEntry]:
    either an exact match ends it, or the prefix matches are collected. *)
Fixpoint collectMatches (notPrimaryKey : string) (entries : list _content)
    (matchPrefix : list _content) : _content + list _content :=
  match entries with
  | [] => inr matchPrefix
  | entry :: rest =>
      if strictEq (Key entry) (Some notPrimaryKey) then inl entry
      else if keyStartsWith notPrimaryKey entry then
        collectMatches notPrimaryKey rest (matchPrefix ++ [entry])%list
      else collectMatches notPrimaryKey rest matchPrefix
  end.

Definition _searchRestoreKeyEntry (notPrimaryKey : string)
    (entries : list _content) : option _content :=
  match collectMatches notPrimaryKey entries [] with
  | inl entry => Some entry
  | inr matchPrefix =>
      if (List.length matchPrefix =? 0)%nat then None
      else hd_error (sort compareLastModified matchPrefix)
  end.

Fixpoint searchRestoreKeyEntry (notPrimaryKey : list string)
    (entries : list _content) : option _content :=
  match notPrimaryKey with
  | [] => None
  | k :: rest =>
      match _searchRestoreKeyEntry k entries with
      | Some found => Some found
      | None => searchRestoreKeyEntry rest entries
      end
  end.

(** The variables of the listing loop. *)
Record ListState : Type := {
  paramContinuationToken : option string;
  s3ContinuationToken : option string;
  contents : list _content;
  count : nat
}.

Inductive ListOutcome : Type :=
| PrimaryFound (entry : ArtifactCacheEntry)
| Listed (contents : list _content).

Definition s3Entry (key : option string) (lastModified : Z) : ArtifactCacheEntry :=
  {| cacheKey := key;
     scope := None;
     cacheVersion := None;
     creationTime := Some (dateToString env lastModified);
     archiveLocation := Some "https://s3.amazonaws.com/" |}.

Definition toContent (obj : _Object) : _content :=
  {| Key := Key obj; LastModified := LastModified obj |}.

(** [if (s3ContinuationToken != undefined) param.ContinuationToken = ...] *)
Definition nextParam (st : ListState) : option string :=
  match s3ContinuationToken st with
  | Some t => Some t
  | None => paramContinuationToken st
  end.

(** The [for (;;)] loop of [getCacheEntryS3]. *)
Fixpoint listObjects (fuel : nat) (s3Options : S3ClientConfig)
    (s3BucketName : string) (primaryKey : option string) (st : ListState)
    : M ListOutcome :=
  match fuel with
  | O => outOfFuel
  | S fuel' =>
      let param := nextParam st in
      response <-
        rethrow (fun e => "Error from S3: " ++ e)
          (request (ListObjectsV2Command s3BucketName param)
             (s3Send env s3Options s3BucketName param)) ;;
      match Contents response with
      | None =>
          if negb (List.length (contents st) =? 0)%nat then ret (Listed (contents st))
          else throw ("Cannot found object in bucket " ++ s3BucketName)
      | Some objs =>
          let continue :=
            let contents' := (contents st ++ map toContent objs)%list in
            if truthyBool (IsTruncated response) then
              listObjects fuel' s3Options s3BucketName primaryKey
                {| paramContinuationToken := param;
                   s3ContinuationToken := NextContinuationToken response;
                   contents := contents';
                   count := S (count st) |}
            else ret (Listed contents') in
          match find (fun content => strictEq (Key content) primaryKey) objs with
          | Some found =>
              match LastModified found with
              | Some lastModified =>
                  ret (PrimaryFound (s3Entry primaryKey lastModified))
              | None => continue
              end
          | None => continue
          end
      end
  end.

Definition initialListState : ListState :=
  {| paramContinuationToken := None;
     s3ContinuationToken := None;
     contents := [];
     count := O |}.

Definition getCacheEntryS3 (fuel : nat) (s3Options : S3ClientConfig)
    (s3BucketName : string) (keys : list string) (paths : list string)
    : M (option ArtifactCacheEntry) :=
  let primaryKey := hd_error keys in
  listed <- listObjects fuel s3Options s3BucketName primaryKey initialListState ;;
  match listed with
  | PrimaryFound entry => ret (Some entry)
  | Listed contents =>
      let notPrimaryKey := tl keys in
      match searchRestoreKeyEntry notPrimaryKey contents with
      | Some found =>
          match LastModified found with
          | Some lastModified => ret (Some (s3Entry (Key found) lastModified))
          | None => ret None
          end
      | None => ret None
      end
  end.

(** ** Lookup *)

Definition printCachesListForDiagnostics (key : option string)
    (version : string) : M unit :=
  let resource :=
    "caches?key=" ++
    encodeURIComponent env (match key with Some k => k | None => "undefined" end) in
  retryTypedResponse "listCache"
    (url <- getCacheApiUrl resource ;;
     request (GetJson url) (listCacheResponse env url)) ;;;
  ret tt.

Definition getCacheEntry (fuel : nat) (keys : list string) (paths : list string)
    (options : option InternalCacheOptions)
    (s3Options : option S3ClientConfig) (s3BucketName : option string)
    : M (option ArtifactCacheEntry) :=
  match objectStore s3Options s3BucketName with
  | Some (o, b) => getCacheEntryS3 fuel o b keys paths
  | None =>
      let version :=
        getCacheVersion env paths
          (match options with Some o => compressionMethod o | None => None end)
          (match options with Some o => enableCrossOsArchive o | None => None end) in
      let resource :=
        "cache?keys=" ++ encodeURIComponent env (String.concat "," keys) ++
        "&version=" ++ version in
      response <-
        retryTypedResponse "getCacheEntry"
          (url <- getCacheApiUrl resource ;;
           request (GetJson url) (getCacheEntryResponse env url)) ;;
      if statusCode response =? 204 then
        (if isDebug env then printCachesListForDiagnostics (hd_error keys) version
         else ret tt) ;;;
        ret None
      else if negb (isSuccessStatusCode (Some (statusCode response))) then
        throw ("Cache service responded with " ++ numToString (statusCode response))
      else
        let cacheResult := result response in
        let cacheDownloadUrl :=
          match cacheResult with Some e => archiveLocation e | None => None end in
        if negb (truthyString cacheDownloadUrl) then throw "Cache not found."
        else ret cacheResult
  end.

(** ** Reserve *)

Definition reserveCache (key : string) (paths : list string)
    (options : option InternalCacheOptions)
    (s3Options : option S3ClientConfig) (s3BucketName : option string)
    : M (TypedResponse ReserveCacheResponse) :=
  match objectStore s3Options s3BucketName with
  | Some _ => ret {| statusCode := 200; result := None; headers := [] |}
  | None =>
      let version :=
        getCacheVersion env paths
          (match options with Some o => compressionMethod o | None => None end)
          (match options with Some o => enableCrossOsArchive o | None => None end) in
      let reserveCacheRequest :=
        ReserveCacheRequest key version
          (match options with Some o => cacheSize o | None => None end) in
      retryTypedResponse "reserveCache"
        (url <- getCacheApiUrl "caches" ;;
         request (PostJson url reserveCacheRequest)
           (reserveCacheResponse env url reserveCacheRequest))
  end.

(** ** Upload *)

(** [openStream()] is evaluated at every attempt, before [sendStream] is
    called: when it throws nothing is sent. *)
Definition uploadChunk (resourceUrl : string) (openStream : M unit)
    (start end_ : Z) : M unit :=
  uploadChunkResponse <-
    retryHttpClientResponse
      ("uploadChunk (start: " ++ numToString start ++ ", end: " ++
       numToString end_ ++ ")")
      (openStream ;;;
       request (SendStreamPATCH resourceUrl start end_)
         (uploadChunkResponse env resourceUrl start end_)) ;;
  if negb (isSuccessStatusCode uploadChunkResponse) then
    throw ("Cache service responded with " ++
           match uploadChunkResponse with
           | Some code => numToString code
           | None => "undefined"
           end ++ " during upload chunk.")
  else ret tt.

Definition uploadFileS3 (s3options : S3ClientConfig) (s3BucketName : string)
    (archivePath key : string) (concurrency maxChunkSize : Z) : M unit :=
  rethrow (fun error => "Cache upload failed because " ++ error)
    (request (S3Upload s3BucketName key concurrency maxChunkSize)
       (s3UploadDone env s3options s3BucketName key)).

(** [utils.assertDefined] of cacheUtils: throws on [undefined]. *)
Definition assertDefined {A} (name : string) (value : option A) : M A :=
  match value with
  | Some v => ret v
  | None => throw ("Expected " ++ name ++ " but value was undefiend")
  end.

(** [[...new Array(concurrency).keys()]]: a length that is negative or above
    2^32 - 1 is a RangeError. *)
Definition newArrayKeys (concurrency : Z) : M (list nat) :=
  if (concurrency <? 0) || (4294967295 <? concurrency)
  then throw "Invalid array length"
  else ret (seq 0 (Z.to_nat concurrency)).

(** [fs.createReadStream(archivePath, {fd, start, end, autoClose: false})]:
    Node checks the bounds when the stream is created and throws a RangeError
    when [start] or [end] is negative or [start] is past [end].  The text of
    the error is Node's own and is given here in short. *)
Definition createReadStream (start end_ : Z) : M unit :=
  if start <? 0 then throw "The value of start is out of range."
  else if end_ <? 0 then throw "The value of end is out of range."
  else if end_ <? start then throw "The value of start is out of range."
  else ret tt.

(** *** The workers of [uploadFile]

    [parallelUploads.map(async () => {...})] starts the workers one after the
    other; each runs until its first [await], that is, until it has claimed a
    range and handed it to [uploadChunk].  From then on a worker runs again
    when its request completes.  The order in which requests complete is not
    fixed by the program: a schedule names, step by step, the worker whose
    request completes next (when that worker has no request in flight, the
    first worker that has one is taken).  The reads and writes of [offset]
    between two [await]s are not interleaved with other workers.

    [Promise.all] rejects with the first rejection; the other workers are not
    stopped by it and go on claiming ranges, so the requests they send after
    it are part of what the call sends. *)

Inductive Worker : Type :=
| InFlight (pending : Res unit)   (* awaiting [uploadChunk], which will settle so *)
| Resolved                        (* left the [while] loop *)
| Rejected (msg : string)         (* [uploadChunk] threw *)
| Hung.                           (* the request never completes *)

Record Pool : Type := {
  offset : Z;
  workers : list Worker;
  sent : list Event;
  rejection : option string       (* the first rejection, which settles [Promise.all] *)
}.

(** One worker from the head of its [while] loop to the next [await]. *)
Definition workerLoop (fileSize maxChunkSize : Z) (resourceUrl : string)
    (offset : Z) : Worker * Z * list Event :=
  if offset <? fileSize then
    let chunkSize := Z.min (fileSize - offset) maxChunkSize in
    let start := offset in
    let end_ := offset + chunkSize - 1 in
    let offset' := offset + maxChunkSize in
    let openStream := createReadStream start end_ in
    let upload := uploadChunk resourceUrl openStream start end_ in
    (InFlight (outcome upload), offset', events upload)
  else (Resolved, offset, []).

(** Starting one more worker. *)
Definition startWorker (fileSize maxChunkSize : Z) (resourceUrl : string)
    (p : Pool) : Pool :=
  let '(w, offset', evs) := workerLoop fileSize maxChunkSize resourceUrl (offset p) in
  {| offset := offset';
     workers := (workers p ++ [w])%list;
     sent := (sent p ++ evs)%list;
     rejection := rejection p |}.

Definition startPool (fileSize maxChunkSize : Z) (resourceUrl : string)
    (parallelUploads : list nat) : Pool :=
  fold_left (fun p _ => startWorker fileSize maxChunkSize resourceUrl p)
    parallelUploads
    {| offset := 0; workers := []; sent := []; rejection := None |}.

Definition isInFlight (w : Worker) : bool :=
  match w with InFlight _ => true | _ => false end.

Fixpoint firstInFlight (ws : list Worker) (i : nat) : option nat :=
  match ws with
  | [] => None
  | w :: ws' => if isInFlight w then Some i else firstInFlight ws' (S i)
  end.

(** The worker whose request completes next. *)
Definition pickWorker (preferred : option nat) (ws : list Worker) : option nat :=
  match preferred with
  | Some i =>
      match nth_error ws i with
      | Some (InFlight _) => Some i
      | _ => firstInFlight ws O
      end
  | None => firstInFlight ws O
  end.

Fixpoint setWorker (ws : list Worker) (i : nat) (w : Worker) : list Worker :=
  match ws, i with
  | [], _ => []
  | _ :: ws', O => w :: ws'
  | w' :: ws', S i' => w' :: setWorker ws' i' w
  end.

(** The request of worker [i] completes and the worker runs to its next
    [await], to the end of its loop, or to its rejection. *)
Definition completeWorker (fileSize maxChunkSize : Z) (resourceUrl : string)
    (i : nat) (p : Pool) : Pool :=
  match nth_error (workers p) i with
  | Some (InFlight (Ok _)) =>
      let '(w, offset', evs) :=
        workerLoop fileSize maxChunkSize resourceUrl (offset p) in
      {| offset := offset';
         workers := setWorker (workers p) i w;
         sent := (sent p ++ evs)%list;
         rejection := rejection p |}
  | Some (InFlight (Throw e)) =>
      {| offset := offset p;
         workers := setWorker (workers p) i (Rejected e);
         sent := sent p;
         rejection := match rejection p with Some r => Some r | None => Some e end |}
  | Some (InFlight OutOfFuel) =>
      {| offset := offset p;
         workers := setWorker (workers p) i Hung;
         sent := sent p;
         rejection := rejection p |}
  | _ => p
  end.

Fixpoint runPool (fuel : nat) (schedule : list nat) (fileSize maxChunkSize : Z)
    (resourceUrl : string) (p : Pool) : Pool :=
  match fuel with
  | O => p
  | S fuel' =>
      match pickWorker (hd_error schedule) (workers p) with
      | Some i =>
          runPool fuel' (tl schedule) fileSize maxChunkSize resourceUrl
            (completeWorker fileSize maxChunkSize resourceUrl i p)
      | None => p
      end
  end.

(** [await Promise.all(...)] once no request is in flight any more: the first
    rejection if there is one, no settlement while a worker hangs. *)
Definition settlePool (p : Pool) : M unit :=
  (sent p,
   match rejection p with
   | Some e => Throw e
   | None =>
       if forallb (fun w => match w with Resolved => true | _ => false end) (workers p)
       then Ok tt else OutOfFuel
   end).

Definition uploadFile (fuel : nat) (schedule : list nat) (cacheId : Z)
    (archivePath key : string) (options : option UploadOptions)
    (s3options : option S3ClientConfig) (s3BucketName : option string)
    : M unit :=
  let uploadOptions := getUploadOptions env options in
  concurrency <- assertDefined "uploadConcurrency" (uploadConcurrency uploadOptions) ;;
  maxChunkSize <- assertDefined "uploadChunkSize" (uploadChunkSize uploadOptions) ;;
  parallelUploads <- newArrayKeys concurrency ;;
  match objectStore s3options s3BucketName with
  | Some (o, b) => uploadFileS3 o b archivePath key concurrency maxChunkSize
  | None =>
      let fileSize := getArchiveFileSizeInBytes env archivePath in
      resourceUrl <- getCacheApiUrl ("caches/" ++ numToString cacheId) ;;
      settlePool
        (runPool fuel schedule fileSize maxChunkSize resourceUrl
           (startPool fileSize maxChunkSize resourceUrl parallelUploads))
  end.

Definition commitCache (cacheId : Z) (filesize : Z) : M (TypedResponse unit) :=
  let commitCacheRequest := CommitCacheRequest filesize in
  retryTypedResponse "commitCache"
    (url <- getCacheApiUrl ("caches/" ++ numToString cacheId) ;;
     request (PostJson url commitCacheRequest)
       (commitCacheResponse env url commitCacheRequest)).

Definition saveCache (fuel : nat) (schedule : list nat) (cacheId : Z)
    (archivePath key : string) (signedUploadURL : option string)
    (options : option UploadOptions)
    (s3Options : option S3ClientConfig) (s3BucketName : option string)
    : M unit :=
  let uploadOptions := getUploadOptions env options in
  if truthyBool (useAzureSdk uploadOptions) then
    match signedUploadURL with
    | Some url =>
        if (url =? "")%string then
          throw "Azure Storage SDK can only be used when a signed URL is provided."
        else request (AzureUpload url archivePath) (azureUploadDone env url archivePath)
    | None =>
        throw "Azure Storage SDK can only be used when a signed URL is provided."
    end
  else
    uploadFile fuel schedule cacheId archivePath key options s3Options s3BucketName ;;;
    if negb (truthyObject s3Options) then
      let cacheSize := getArchiveFileSizeInBytes env archivePath in
      commitCacheResponse <- commitCache cacheId cacheSize ;;
      if negb (isSuccessStatusCode (Some (statusCode commitCacheResponse))) then
        throw ("Cache service responded with " ++
               numToString (statusCode commitCacheResponse) ++
               " during commit cache.")
      else ret tt
    else ret tt.

End CacheHttpClient.

(** ** Download *)

(** [DownloadOptions] (options): the two fields [downloadCache] reads. *)
Module Download.
Record DownloadOptions : Type := {
  useAzureSdk : option bool;
  concurrentBlobDownloads : option bool
}.
End Download.

(** The four ways of [downloadUtils] to fetch an archive. *)
Inductive DownloadCall : Type :=
| downloadCacheStorageSDK (archiveLocation archivePath : string)
    (options : Download.DownloadOptions)
| downloadCacheHttpClientConcurrent (archiveLocation archivePath : string)
    (options : Download.DownloadOptions)
| downloadCacheHttpClient (archiveLocation archivePath : string)
| downloadCacheStorageS3 (key archivePath : string)
    (s3Options : S3ClientConfig) (s3BucketName : string).

Record DownloadEnv : Type := {
  (** [getDownloadOptions] of options *)
  getDownloadOptions : option Download.DownloadOptions -> Download.DownloadOptions;
  (** [new URL(location).hostname], or the error of [new URL] *)
  urlHostname : string -> Res string;
  (** what the download resolves to or rejects with *)
  downloadDone : DownloadCall -> Res unit
}.

(** [s.endsWith(suffix)]: some tail of [s] is [suffix]. *)
Fixpoint endsWith (s suffix : string) : bool :=
  (s =? suffix)%string ||
  match s with
  | EmptyString => false
  | String _ s' => endsWith s' suffix
  end.

(** The download chosen by [downloadCache] for an address that parses. *)
Definition chooseDownload (denv : DownloadEnv) (hostname archiveLocation : string)
    (cacheEntry : ArtifactCacheEntry) (archivePath : string)
    (options : option Download.DownloadOptions)
    (s3Options : option S3ClientConfig) (s3BucketName : option string)
    : DownloadCall :=
  let downloadOptions := getDownloadOptions denv options in
  if endsWith hostname ".blob.core.windows.net" then
    if truthyBool (Download.useAzureSdk downloadOptions) then
      downloadCacheStorageSDK archiveLocation archivePath downloadOptions
    else if truthyBool (Download.concurrentBlobDownloads downloadOptions) then
      downloadCacheHttpClientConcurrent archiveLocation archivePath downloadOptions
    else downloadCacheHttpClient archiveLocation archivePath
  else
    match objectStore s3Options s3BucketName, cacheKey cacheEntry with
    | Some (o, b), Some key =>
        if (key =? "")%string
        then downloadCacheHttpClient archiveLocation archivePath
        else downloadCacheStorageS3 key archivePath o b
    | _, _ => downloadCacheHttpClient archiveLocation archivePath
    end.

(** [downloadCache]: the downloads started, in order, and the outcome. *)
Definition downloadCache (denv : DownloadEnv) (cacheEntry : ArtifactCacheEntry)
    (archivePath : string) (options : option Download.DownloadOptions)
    (s3Options : option S3ClientConfig) (s3BucketName : option string)
    : list DownloadCall * Res unit :=
  let archiveLocation :=
    match archiveLocation cacheEntry with
    | Some location => location
    | None => "https://example.com"
    end in
  match urlHostname denv archiveLocation with
  | Ok hostname =>
      let call :=
        chooseDownload denv hostname archiveLocation cacheEntry archivePath
          options s3Options s3BucketName in
      ([call], downloadDone denv call)
  | Throw e => ([], Throw e)
  | OutOfFuel => ([], OutOfFuel)
  end.

(** ** Headers *)

(** [`bytes ${start}-${end}/*`] *)
Definition getContentRange (start end_ : Z) : string :=
  "bytes " ++ numToString start ++ "-" ++ numToString end_ ++ "/*".

(** ** Vocabulary for the listing *)

(** An entry whose key equals the fallback key [k]. *)
Definition exact (k : string) (e : _content) : bool := strictEq (Key e) (Some k).

Definition isSome {A} (o : option A) : bool :=
  match o with Some _ => true | None => false end.

(** What one page adds to [contents]. *)
Definition objectsOf (r : ListObjectsV2CommandOutput) : list _content :=
  match Contents r with
  | Some objs => map toContent objs
  | None => []
  end.

Definition listed (pages : list ListObjectsV2CommandOutput) : list _content :=
  flat_map objectsOf pages.

(** The timestamp of the primary match of a page: the first object of the
    page whose key is the primary key, if it carries a timestamp. *)
Definition primaryMatch (primaryKey : option string) (objs : list _Object)
    : option Z :=
  match find (fun content => strictEq (Key content) primaryKey) objs with
  | Some found => LastModified found
  | None => None
  end.

(** A page after which the listing goes on: it has [Contents] and is
    truncated. *)
Definition hasMore (r : ListObjectsV2CommandOutput) : bool :=
  isSome (Contents r) && truthyBool (IsTruncated r).

(** ... and has no primary match. *)
Definition continues (primaryKey : option string)
    (r : ListObjectsV2CommandOutput) : bool :=
  hasMore r &&
  match Contents r with
  | Some objs => negb (isSome (primaryMatch primaryKey objs))
  | None => false
  end.

(** The token of the request after the one sent with [param] and answered
    with [r]. *)
Definition followingParam (param : option string)
    (r : ListObjectsV2CommandOutput) : option string :=
  match NextContinuationToken r with
  | Some t => Some t
  | None => param
  end.

(** [pages] are the successive answers of the bucket, the first request
    carrying the token [param] and each further one the token of the answer
    before it. *)
Fixpoint paged (send : option string -> Res ListObjectsV2CommandOutput)
    (param : option string) (pages : list ListObjectsV2CommandOutput) : Prop :=
  match pages with
  | [] => True
  | r :: rest => send param = Ok r /\ paged send (followingParam param r) rest
  end.

(** The requests that fetch [pages]. *)
Fixpoint listingEvents (bucket : string) (param : option string)
    (pages : list ListObjectsV2CommandOutput) : list Event :=
  match pages with
  | [] => []
  | r :: rest =>
      Direct (ListObjectsV2Command bucket param) ::
      listingEvents bucket (followingParam param r) rest
  end.

(** The loop variables after a page that lets the loop go on. *)
Definition advance1 (st : ListState) (r : ListObjectsV2CommandOutput) : ListState :=
  {| paramContinuationToken := nextParam st;
     s3ContinuationToken := NextContinuationToken r;
     contents := (contents st ++ objectsOf r)%list;
     count := S (count st) |}.

Definition advance (st : ListState) (pages : list ListObjectsV2CommandOutput)
    : ListState :=
  fold_left advance1 pages st.

(** The token of the request that follows [pages]. *)
Definition paramAfter (param : option string)
    (pages : list ListObjectsV2CommandOutput) : option string :=
  fold_left followingParam pages param.

(** A page that ends the listing without a primary match, [pre] being the
    pages before it: it is not truncated, or it has no [Contents] while
    earlier pages had objects. *)
Definition finishes (primaryKey : option string)
    (pre : list ListObjectsV2CommandOutput) (last : ListObjectsV2CommandOutput)
    : bool :=
  match Contents last with
  | Some objs =>
      negb (isSome (primaryMatch primaryKey objs)) &&
      negb (truthyBool (IsTruncated last))
  | None => negb (List.length (listed pre) =? 0)%nat
  end.

(** What [getCacheEntryS3] makes of the listed entries once no page had a
    primary match. *)
Definition fallbackEntry (env : Env) (keys : list string)
    (entries : list _content) : option ArtifactCacheEntry :=
  match searchRestoreKeyEntry (tl keys) entries with
  | Some found =>
      match LastModified found with
      | Some lastModified => Some (s3Entry env (Key found) lastModified)
      | None => None
      end
  | None => None
  end.

Definition prepend {A} (evs : list Event) (m : M A) : M A :=
  ((evs ++ fst m)%list, snd m).

(** An object that some answer of the bucket carries. *)
Definition served (send : option string -> Res ListObjectsV2CommandOutput)
    (obj : _content) : Prop :=
  exists param r objs,
    send param = Ok r /\ Contents r = Some objs /\ In obj objs.

(** Every object with the key [primaryKey] lacks a timestamp. *)
Definition primaryUndated (primaryKey : option string)
    (entries : list _content) : bool :=
  forallb (fun c => implb (strictEq (Key c) primaryKey)
                          (negb (isSome (LastModified c)))) entries.

(** The time of a dated entry. *)
Definition lastModifiedTime (e : _content) : Z :=
  match LastModified e with
  | Some t => t
  | None => 0
  end.

(** Every entry that starts with the key [k] is dated. *)
Definition prefixMatchesDated (k : string) (entries : list _content) : bool :=
  forallb (fun e => implb (keyStartsWith k e) (isSome (LastModified e))) entries.

(** A page that is truncated and names no further token. *)
Definition stuckPage : ListObjectsV2CommandOutput :=
  {| Contents := Some [ {| Key := Some "other"; LastModified := Some 4 |} ];
     IsTruncated := Some true;
     NextContinuationToken := None |}.

(** A page without [Contents] that is marked as truncated. *)
Definition hollowPage : ListObjectsV2CommandOutput :=
  {| Contents := None;
     IsTruncated := Some true;
     NextContinuationToken := Some "t2" |}.

(** ** Vocabulary for the upload *)

(** The call of [uploadChunk] that [uploadFile] makes for the range from
    [start] to [end_]. *)
Definition chunkUpload (env : Env) (resourceUrl : string) (start end_ : Z)
    : M unit :=
  uploadChunk env resourceUrl (createReadStream start end_) start end_.

(** The ranges handed to [uploadChunk], in the order of the requests. *)
Fixpoint ranges (evs : list Event) : list (Z * Z) :=
  match evs with
  | [] => []
  | Direct (SendStreamPATCH _ s e) :: rest => (s, e) :: ranges rest
  | Retried _ (SendStreamPATCH _ s e) :: rest => (s, e) :: ranges rest
  | _ :: rest => ranges rest
  end.

(** The ranges, each not empty, follow one another from [lo] up to [hi]
    (exclusive) without gap or overlap. *)
Fixpoint contiguous (lo : Z) (rs : list (Z * Z)) (hi : Z) : Prop :=
  match rs with
  | [] => lo = hi
  | (s, e) :: rest => s = lo /\ s <= e /\ contiguous (e + 1) rest hi
  end.

Fixpoint totalBytes (rs : list (Z * Z)) : Z :=
  match rs with
  | [] => 0
  | (s, e) :: rest => (e - s + 1) + totalBytes rest
  end.

(** The number of ranges that hold the byte offset [b]. *)
Definition covering (b : Z) (rs : list (Z * Z)) : nat :=
  List.length (filter (fun r => (fst r <=? b) && (b <=? snd r)) rs).

Definition inFlightCount (ws : list Worker) : nat :=
  List.length (filter isInFlight ws).

(** What holds of the pool at every moment: the ranges sent so far follow one
    another from byte 0 up to the offset (or to the end of the file), every
    request went through the retry wrapper and none is a commit, and a worker
    has left its loop only once the offset had passed the end of the file. *)
Definition PoolInv (fileSize : Z) (p : Pool) : Prop :=
  0 <= offset p /\
  contiguous 0 (ranges (sent p)) (Z.min (offset p) fileSize) /\
  forallb isRetried (sent p) = true /\
  (forall w, In w (workers p) -> w = Resolved -> fileSize <= offset p).

(** Every chunk among the requests [evs] is one that the cache service
    accepts. *)
Definition sentAccepted (env : Env) (resourceUrl : string) (evs : list Event)
    : Prop :=
  forall s e, In (s, e) (ranges evs) ->
    outcome (chunkUpload env resourceUrl s e) = Ok tt.

(** No chunk has failed so far. *)
Definition PoolOk (p : Pool) : Prop :=
  rejection p = None /\
  forall w, In w (workers p) -> w = Resolved \/ w = InFlight (Ok tt).

(** What is left to do: bytes not yet claimed and requests in flight. *)
Definition poolMeasure (fileSize : Z) (p : Pool) : nat :=
  (Z.to_nat (fileSize - offset p) + inFlightCount (workers p))%nat.

Definition isCommit (e : Event) : bool :=
  match e with
  | Direct (PostJson _ (CommitCacheRequest _)) => true
  | Retried _ (PostJson _ (CommitCacheRequest _)) => true
  | _ => false
  end.

(** The first [n] ranges that a cursor starting at [offset] hands out: each of
    [maxChunkSize] bytes, the one that reaches the end of the file cut there. *)
Fixpoint chunkPlan (n : nat) (fileSize maxChunkSize offset : Z) : list (Z * Z) :=
  match n with
  | O => []
  | S n' =>
      (offset, offset + Z.min (fileSize - offset) maxChunkSize - 1) ::
      chunkPlan n' fileSize maxChunkSize (offset + maxChunkSize)
  end.

(** The number of chunks of a file: its size over the chunk size, rounded up. *)
Definition chunkCount (fileSize maxChunkSize : Z) : nat :=
  Z.to_nat ((fileSize + maxChunkSize - 1) / maxChunkSize).

(** The offset is a multiple of the chunk size and the ranges sent so far are
    the plan up to it; the last of them began inside the file. *)
Definition PlanInv (fileSize maxChunkSize : Z) (p : Pool) : Prop :=
  exists n : nat,
    ranges (sent p) = chunkPlan n fileSize maxChunkSize 0 /\
    offset p = Z.of_nat n * maxChunkSize /\
    (n = O \/ (Z.of_nat n - 1) * maxChunkSize < fileSize).


(** Nothing was sent, the offset has not moved forward, and every worker
    awaits a chunk that fails. *)
Definition PoolBlocked (p : Pool) : Prop :=
  offset p <= 0 /\ sent p = [] /\ rejection p = None /\
  forall w, In w (workers p) -> exists msg, w = InFlight (Throw msg).

(** Nothing was sent, the offset has not moved forward, a chunk has failed,
    and every worker awaits a chunk that fails or has left with its error. *)
Definition PoolFailed (p : Pool) : Prop :=
  offset p <= 0 /\ sent p = [] /\ rejection p <> None /\
  forall w, In w (workers p) ->
    (exists msg, w = InFlight (Throw msg)) \/ (exists msg, w = Rejected msg).

(** A decimal digit. *)
Definition isDigit (c : Ascii.ascii) : bool :=
  let n := Ascii.nat_of_ascii c in
  (48 <=? n)%nat && (n <=? 57)%nat.

Fixpoint allDigits (s : string) : bool :=
  match s with
  | EmptyString => true
  | String c s' => isDigit c && allDigits s'
  end.

(** ** Environments for the examples *)

(** The defaults of [getUploadOptions], overridden by the caller's options. *)
Definition exampleUploadOptions (copy : option UploadOptions) : UploadOptions :=
  let pick {A} (f : UploadOptions -> option A) (d : A) : option A :=
    match copy with
    | Some c => match f c with Some v => Some v | None => Some d end
    | None => Some d
    end in
  {| useAzureSdk := pick useAzureSdk false;
     uploadConcurrency := pick uploadConcurrency 4;
     uploadChunkSize := pick uploadChunkSize (32 * 1024 * 1024) |}.

(** A runner whose cache service is at [https://cache.example/]; the version
    is the list of paths, a date prints as its time value, every archive has
    [fileSize] bytes. *)
Definition exampleEnv (debug : bool)
    (send : option string -> Res ListObjectsV2CommandOutput)
    (lookup : Res (TypedResponse ArtifactCacheEntry))
    (diagnostics : Res (TypedResponse ArtifactCacheList))
    (patch : Z -> Z -> Res (option Z))
    (fileSize : Z) : Env :=
  {| getCacheServiceURL := "https://cache.example/";
     isDebug := debug;
     getCacheVersion := fun paths _ _ => String.concat "|" paths;
     getArchiveFileSizeInBytes := fun _ => fileSize;
     getUploadOptions := exampleUploadOptions;
     encodeURIComponent := fun s => s;
     dateToString := numToString;
     s3Send := fun _ _ param => send param;
     s3UploadDone := fun _ _ _ => Ok tt;
     azureUploadDone := fun _ _ => Ok tt;
     getCacheEntryResponse := fun _ => lookup;
     listCacheResponse := fun _ => diagnostics;
     reserveCacheResponse := fun _ _ =>
       Ok {| statusCode := 201; result := Some {| cacheId := 7 |}; headers := [] |};
     commitCacheResponse := fun _ _ =>
       Ok {| statusCode := 204; result := None; headers := [] |};
     uploadChunkResponse := fun _ => patch |}.

Definition noContent {T} : Res (TypedResponse T) :=
  Ok {| statusCode := 204; result := None; headers := [] |}.

(** A bucket seen through a fixed list of pages: the request without token
    gets the first page, the request with token [t] the page filed under [t]. *)
Definition pagesByToken (first : ListObjectsV2CommandOutput)
    (others : list (string * ListObjectsV2CommandOutput))
    (param : option string) : Res ListObjectsV2CommandOutput :=
  match param with
  | None => Ok first
  | Some t =>
      match find (fun p => (fst p =? t)%string) others with
      | Some p => Ok (snd p)
      | None => Throw "InvalidToken"
      end
  end.

Definition s3Env (first : ListObjectsV2CommandOutput)
    (others : list (string * ListObjectsV2CommandOutput)) : Env :=
  exampleEnv false (pagesByToken first others) noContent noContent
    (fun _ _ => Ok (Some 204)) 0.

(** A cache service that answers every chunk with [status]; the archive has
    ten bytes. *)
Definition uploadEnv (status : Z) : Env :=
  exampleEnv false (fun _ => Throw "no bucket") noContent noContent
    (fun _ _ => Ok (Some status)) 10.

Definition chunksOfFour (concurrency : Z) : option UploadOptions :=
  Some {| useAzureSdk := None;
          uploadConcurrency := Some concurrency;
          uploadChunkSize := Some 4 |}.

(** A runner in debug mode whose cache service answers the lookup with 204
    and fails the diagnostic listing of the caches. *)
Definition debugEnv : Env :=
  exampleEnv true (fun _ => Throw "no bucket") noContent (Throw "ECONNRESET")
    (fun _ _ => Ok (Some 204)) 10.

Definition exampleS3Options : S3ClientConfig :=
  {| region := Some "us-east-1"; endpoint := None |}.

(** A bucket without objects: the only page carries no [Contents]. *)
Definition emptyBucketPage : ListObjectsV2CommandOutput :=
  {| Contents := None; IsTruncated := Some false; NextContinuationToken := None |}.

Definition object (key : string) (lastModified : Z) : _Object :=
  {| Key := Some key; LastModified := Some lastModified |}.

(** A bucket listed in three pages. *)
Definition page1 : ListObjectsV2CommandOutput :=
  {| Contents := Some [object "k-v1" 9; object "other" 4];
     IsTruncated := Some true;
     NextContinuationToken := Some "t1" |}.

Definition page2 : ListObjectsV2CommandOutput :=
  {| Contents := Some [object "k-v2" 1];
     IsTruncated := Some true;
     NextContinuationToken := Some "t2" |}.

Definition page3 : ListObjectsV2CommandOutput :=
  {| Contents := Some [object "k-v1-x" 99];
     IsTruncated := Some false;
     NextContinuationToken := None |}.

Definition threePages : Env := s3Env page1 [("t1", page2); ("t2", page3)].

(** A bucket whose only object has the key [k] and no timestamp, next to a
    dated object [k-old]. *)
Definition undatedPage : ListObjectsV2CommandOutput :=
  {| Contents := Some [ {| Key := Some "k"; LastModified := None |};
                        object "k-old" 3 ];
     IsTruncated := Some false;
     NextContinuationToken := None |}.

(** A runner whose cache service is at [url] and answers the reservation
    and the commit as given. *)
Definition serviceEnv (url : string)
    (lookup : Res (TypedResponse ArtifactCacheEntry))
    (reserve : Res (TypedResponse ReserveCacheResponse))
    (commit : Res (TypedResponse unit)) : Env :=
  {| getCacheServiceURL := url;
     isDebug := false;
     getCacheVersion := fun paths _ _ => String.concat "|" paths;
     getArchiveFileSizeInBytes := fun _ => 10;
     getUploadOptions := exampleUploadOptions;
     encodeURIComponent := fun s => s;
     dateToString := numToString;
     s3Send := fun _ _ _ => Throw "no bucket";
     s3UploadDone := fun _ _ _ => Ok tt;
     azureUploadDone := fun _ _ => Ok tt;
     getCacheEntryResponse := fun _ => lookup;
     listCacheResponse := fun _ => noContent;
     reserveCacheResponse := fun _ _ => reserve;
     commitCacheResponse := fun _ _ => commit;
     uploadChunkResponse := fun _ _ _ => Ok (Some 204) |}.

(** An entry as the cache service hands it out. *)
Definition serviceEntry : ArtifactCacheEntry :=
  {| cacheKey := Some "k";
     scope := Some "refs/heads/main";
     cacheVersion := Some "p";
     creationTime := Some "2024-01-01T00:00:00Z";
     archiveLocation := Some "https://cache.example/archives/1" |}.

Definition hit : Res (TypedResponse ArtifactCacheEntry) :=
  Ok {| statusCode := 200; result := Some serviceEntry; headers := [] |}.

Definition conflict : Res (TypedResponse ReserveCacheResponse) :=
  Ok {| statusCode := 409; result := None; headers := [] |}.

(** Hosts as [new URL] reads them off three addresses; every download
    succeeds. *)
Definition exampleDownloadEnv : DownloadEnv :=
  {| getDownloadOptions := fun _ =>
       {| Download.useAzureSdk := Some false;
          Download.concurrentBlobDownloads := Some true |};
     urlHostname := fun location =>
       if (location =? "https://s3.amazonaws.com/")%string
       then Ok "s3.amazonaws.com"
       else if (location =? "https://example.com")%string
       then Ok "example.com"
       else if (location =? "https://acct.blob.core.windows.net/c/1")%string
       then Ok "acct.blob.core.windows.net"
       else Throw "Invalid URL";
     downloadDone := fun _ => Ok tt |}.

(** Four entries under the key [a], two of them with the latest time. *)
Definition tiedEntries : list _content :=
  [ object "ab" 5; object "ac" 7; object "ad" 7; object "b" 9 ].

(** ** The claims of the specification, in its own words *)

(** An entry matches a fallback key when its key starts with it (an equal key
    does). *)
Definition matchesKey (k : string) (entries : list _content) : bool :=
  existsb (keyStartsWith k) entries.

(** "Among prefix matches, select the one with the latest lastModified", for
    the single fallback key [k]: no prefix match carries a later timestamp
    than the entry returned has. *)
Definition latestSelected (k : string) (entries : list _content) : Prop :=
  forall found, searchRestoreKeyEntry [k] entries = Some found ->
  forall e t, In e entries -> keyStartsWith k e = true ->
              LastModified e = Some t ->
  exists t', LastModified found = Some t' /\ t <= t'.

(** C1: whenever the listing holds an object whose key is [keys[0]], the
    lookup returns an entry for that key.  [pre ++ [last]] is the whole
    listing. *)
Definition primaryAlwaysReturned (env : Env) (s3Options : S3ClientConfig)
    (s3BucketName : string) (keys : list string)
    (pre : list ListObjectsV2CommandOutput) (last : ListObjectsV2CommandOutput)
    : Prop :=
  paged (s3Send env s3Options s3BucketName) None (pre ++ [last]) ->
  forallb hasMore pre = true ->
  truthyBool (IsTruncated last) = false ->
  existsb (fun c => strictEq (Key c) (hd_error keys)) (listed (pre ++ [last])) = true ->
  forall fuel, (List.length pre < fuel)%nat ->
  exists entry,
    outcome (getCacheEntryS3 env fuel s3Options s3BucketName keys []) = Ok (Some entry) /\
    cacheKey entry = hd_error keys.

(** C5: whenever no listed entry has the primary key and none starts with a
    fallback key, the lookup returns none (and does not throw). *)
Definition missReturnsNone (env : Env) (s3Options : S3ClientConfig)
    (s3BucketName : string) (keys : list string)
    (pre : list ListObjectsV2CommandOutput) (last : ListObjectsV2CommandOutput)
    : Prop :=
  paged (s3Send env s3Options s3BucketName) None (pre ++ [last]) ->
  forallb hasMore pre = true ->
  truthyBool (IsTruncated last) = false ->
  existsb (fun c => strictEq (Key c) (hd_error keys)) (listed (pre ++ [last])) = false ->
  forallb (fun k => negb (matchesKey k (listed (pre ++ [last])))) (tl keys) = true ->
  forall fuel, (List.length pre < fuel)%nat ->
  outcome (getCacheEntryS3 env fuel s3Options s3BucketName keys []) = Ok None.

(** The version of a lookup or reservation. *)
Definition versionOf (env : Env) (paths : list string)
    (options : option InternalCacheOptions) : string :=
  getCacheVersion env paths
    (match options with Some o => compressionMethod o | None => None end)
    (match options with Some o => enableCrossOsArchive o | None => None end).

(** C4: two lookups with the same keys and different versions never return
    the same entry. *)
Definition versionIsIdentity (env : Env) : Prop :=
  forall fuel keys paths1 paths2 options1 options2 s3Options s3BucketName entry,
    versionOf env paths1 options1 <> versionOf env paths2 options2 ->
    outcome (getCacheEntry env fuel keys paths1 options1 s3Options s3BucketName)
      = Ok (Some entry) ->
    outcome (getCacheEntry env fuel keys paths2 options2 s3Options s3BucketName)
      <> Ok (Some entry).

(** C7, first part: a 204 answer of the cache service makes the lookup return
    none. *)
Definition noContentMeansNone (env : Env) : Prop :=
  forall fuel keys paths options response,
    getCacheEntryResponse env
      (getCacheServiceURL env ++ "_apis/artifactcache/" ++
       "cache?keys=" ++ encodeURIComponent env (String.concat "," keys) ++
       "&version=" ++ versionOf env paths options) = Ok response ->
    statusCode response = 204 ->
    outcome (getCacheEntry env fuel keys paths options None None) = Ok None.

(** C8: every request of a lookup is sent from inside the retry wrapper. *)
Definition everyLookupRequestRetried (env : Env) : Prop :=
  forall fuel keys paths options s3Options s3BucketName,
    forallb isRetried
      (events (getCacheEntry env fuel keys paths options s3Options s3BucketName))
    = true.

(** C6: the ranges handed to [uploadChunk] by one upload of the archive cover
    the file from the first byte to the last, and their sizes add up to the
    size of the file. *)
Definition rangesPartitionFile (env : Env) (fuel : nat) (schedule : list nat)
    (cacheId : Z) (archivePath key : string) (options : option UploadOptions)
    : Prop :=
  let run := uploadFile env fuel schedule cacheId archivePath key options None None in
  contiguous 0 (ranges (events run)) (getArchiveFileSizeInBytes env archivePath) /\
  totalBytes (ranges (events run)) = getArchiveFileSizeInBytes env archivePath.

(** The address of the lookup request of the cache service. *)
Definition lookupUrl (env : Env) (keys : list string) (version : string) : string :=
  getCacheServiceURL env ++ "_apis/artifactcache/" ++
  "cache?keys=" ++ encodeURIComponent env (String.concat "," keys) ++
  "&version=" ++ version.

(** * Properties *)

(** ** Strings and options *)

Lemma strictEq_true (a b : option string) : strictEq a b = true <-> a = b.
Proof.
  destruct a as [x|], b as [y|]; simpl; try (split; congruence).
  rewrite String.eqb_eq. split; congruence.
Qed.

Lemma prefix_refl (s : string) : String.prefix s s = true.
Proof.
  induction s as [|a s IH]; simpl; [reflexivity|].
  destruct (Ascii.ascii_dec a a); [assumption | congruence].
Qed.

Lemma exact_is_prefix (k : string) (e : _content) :
  Key e = Some k -> keyStartsWith k e = true.
Proof. unfold keyStartsWith. intros ->. apply prefix_refl. Qed.

Lemma append_inj_r (p a b : string) : p ++ a = p ++ b -> a = b.
Proof. induction p as [|c p IH]; simpl; [auto | intros [= H]; auto]. Qed.

(** ** Fallback keys *)

Section Fallback.

Lemma collectMatches_find (k : string) (entries acc : list _content) :
  collectMatches k entries acc =
  match find (exact k) entries with
  | Some e => inl e
  | None => inr (acc ++ filter (keyStartsWith k) entries)%list
  end.
Proof.
  revert acc. induction entries as [|x rest IH]; intros acc; simpl.
  - now rewrite app_nil_r.
  - unfold exact at 1. destruct (strictEq (Key x) (Some k)); [reflexivity|].
    destruct (keyStartsWith k x); rewrite IH; [|reflexivity].
    destruct (find (exact k) rest); [reflexivity|].
    now rewrite <- app_assoc.
Qed.

Lemma _searchRestoreKeyEntry_find (k : string) (entries : list _content) :
  _searchRestoreKeyEntry k entries =
  match find (exact k) entries with
  | Some e => Some e
  | None => hd_error (sort compareLastModified (filter (keyStartsWith k) entries))
  end.
Proof.
  unfold _searchRestoreKeyEntry. rewrite collectMatches_find. simpl.
  destruct (find (exact k) entries); [reflexivity|].
  destruct (filter (keyStartsWith k) entries); reflexivity.
Qed.

Lemma hd_sort_cons {A} (cmp : A -> A -> Z) (x : A) (l : list A) :
  hd_error (sort cmp (x :: l)) =
  match hd_error (sort cmp l) with
  | None => Some x
  | Some y => if cmp x y >? 0 then Some y else Some x
  end.
Proof.
  simpl. destruct (sort cmp l) as [|y s]; simpl; [reflexivity|].
  destruct (cmp x y >? 0); reflexivity.
Qed.

Lemma compareLastModified_pos (i j : _content) :
  compareLastModified i j > 0 <->
  exists ti tj, LastModified i = Some ti /\ LastModified j = Some tj /\ ti < tj.
Proof.
  unfold compareLastModified.
  destruct (LastModified i) as [ti|], (LastModified j) as [tj|].
  - destruct (Z.eqb_spec ti tj) as [E|E].
    { split; [lia | intros (a & b & [= <-] & [= <-] & H); lia]. }
    destruct (Z.gtb_spec ti tj) as [G|G].
    { split; [lia | intros (a & b & [= <-] & [= <-] & H); lia]. }
    destruct (Z.ltb_spec ti tj) as [L|L]; [|lia].
    split; [intros _; exists ti, tj; auto | lia].
  - split; [lia | intros (a & b & _ & [= ] & _)].
  - split; [lia | intros (a & b & [= ] & _)].
  - split; [lia | intros (a & b & [= ] & _)].
Qed.

(** The head of the sorted array is one of its elements. *)
Lemma hd_sort_In (l : list _content) (h : _content) :
  hd_error (sort compareLastModified l) = Some h -> In h l.
Proof.
  revert h. induction l as [|x l IH]; intros h; [discriminate|].
  rewrite hd_sort_cons.
  destruct (hd_error (sort compareLastModified l)) as [y|].
  - destruct (compareLastModified x y >? 0); intros [= <-]; [right; auto | left; auto].
  - intros [= <-]. now left.
Qed.

Lemma hd_sort_some (l : list _content) :
  l <> [] -> exists h, hd_error (sort compareLastModified l) = Some h.
Proof.
  destruct l as [|x l]; [congruence|]. intros _. rewrite hd_sort_cons.
  destruct (hd_error (sort compareLastModified l)) as [y|]; [|eauto].
  destruct (compareLastModified x y >? 0); eauto.
Qed.

(** When every element carries a timestamp, the head of the sorted array
    carries the latest one. *)
Lemma hd_sort_latest (l : list _content) (h : _content) :
  (forall e, In e l -> LastModified e <> None) ->
  hd_error (sort compareLastModified l) = Some h ->
  exists t, LastModified h = Some t /\
            forall e t', In e l -> LastModified e = Some t' -> t' <= t.
Proof.
  revert h. induction l as [|x l IH]; intros h Hall; [discriminate|].
  rewrite hd_sort_cons.
  assert (Hl : forall e, In e l -> LastModified e <> None)
    by (intros e He; apply Hall; now right).
  destruct (LastModified x) as [tx|] eqn:Hx; [|exfalso; apply (Hall x); simpl; auto].
  destruct (hd_error (sort compareLastModified l)) as [y|] eqn:Hy.
  - destruct (IH y Hl eq_refl) as (ty & Hty & Hmax).
    destruct (Z.gtb_spec (compareLastModified x y) 0) as [Hc|Hc]; intros [= <-].
    + apply Z.lt_gt in Hc. apply compareLastModified_pos in Hc.
      destruct Hc as (a & b & Ha & Hb & Hlt).
      exists ty. split; [assumption|]. intros e t' [<-|He] Ht'; [|eauto].
      rewrite Hx in Ha. rewrite Hty in Hb. rewrite Hx in Ht'.
      injection Ha as <-. injection Hb as <-. injection Ht' as <-. lia.
    + exists tx. split; [assumption|]. intros e t' [<-|He] Ht'.
      * rewrite Hx in Ht'. injection Ht' as <-. lia.
      * specialize (Hmax e t' He Ht').
        assert (~ tx < ty); [|lia].
        intros Hlt.
        assert (compareLastModified x y > 0); [|lia].
        apply compareLastModified_pos. eauto.
  - intros [= <-]. exists tx. split; [assumption|].
    intros e t' [<-|He] Ht'.
    + rewrite Hx in Ht'. injection Ht' as <-. lia.
    + destruct l as [|z l']; [contradiction|].
      destruct (hd_sort_some (z :: l')) as (h' & Hh'); congruence.
Qed.

Lemma _searchRestoreKeyEntry_none (k : string) (entries : list _content) :
  matchesKey k entries = false -> _searchRestoreKeyEntry k entries = None.
Proof.
  unfold matchesKey. intros H. rewrite _searchRestoreKeyEntry_find.
  assert (Hf : forall e, In e entries -> keyStartsWith k e = false).
  { intros e He. destruct (keyStartsWith k e) eqn:E; [|reflexivity].
    assert (existsb (keyStartsWith k) entries = true) by (apply existsb_exists; eauto).
    congruence. }
  destruct (find (exact k) entries) as [e|] eqn:F.
  - apply find_some in F. destruct F as [He Hx]. apply strictEq_true in Hx.
    pose proof (Hf e He) as Q. rewrite (exact_is_prefix k e Hx) in Q. discriminate.
  - replace (filter (keyStartsWith k) entries) with (@nil _content); [reflexivity|].
    symmetry. clear F H. induction entries as [|x l IH]; [reflexivity|]. simpl.
    rewrite (Hf x) by (now left). apply IH. intros e He. apply Hf. now right.
Qed.

Lemma _searchRestoreKeyEntry_some (k : string) (entries : list _content) :
  matchesKey k entries = true ->
  exists found, _searchRestoreKeyEntry k entries = Some found /\
                In found entries /\ keyStartsWith k found = true.
Proof.
  unfold matchesKey. intros H. rewrite _searchRestoreKeyEntry_find.
  destruct (find (exact k) entries) as [e|] eqn:F.
  - apply find_some in F. destruct F as [He Hx]. apply strictEq_true in Hx.
    exists e. auto using exact_is_prefix.
  - apply existsb_exists in H. destruct H as (e & He & Hp).
    destruct (hd_sort_some (filter (keyStartsWith k) entries)) as (h & Hh).
    { intros E. assert (In e (filter (keyStartsWith k) entries))
        by (apply filter_In; auto). rewrite E in H. contradiction. }
    exists h. split; [assumption|]. apply hd_sort_In, filter_In in Hh. tauto.
Qed.

(** Keys without any match are passed over; the first key with a match
    decides, whatever follows it. *)
Lemma searchRestoreKeyEntry_first (before after : list string) (k : string)
    (entries : list _content) :
  forallb (fun k' => negb (matchesKey k' entries)) before = true ->
  matchesKey k entries = true ->
  searchRestoreKeyEntry (before ++ k :: after) entries =
  _searchRestoreKeyEntry k entries.
Proof.
  intros Hb Hk. induction before as [|k' before IH]; simpl.
  - destruct (_searchRestoreKeyEntry_some k entries Hk) as (f & -> & _). reflexivity.
  - simpl in Hb. apply andb_prop in Hb. destruct Hb as [H1 H2].
    rewrite _searchRestoreKeyEntry_none by (now apply negb_true_iff). auto.
Qed.

Lemma searchRestoreKeyEntry_none (keys : list string) (entries : list _content) :
  forallb (fun k' => negb (matchesKey k' entries)) keys = true ->
  searchRestoreKeyEntry keys entries = None.
Proof.
  induction keys as [|k keys IH]; simpl; [reflexivity|]. intros Hb.
  apply andb_prop in Hb. destruct Hb as [H1 H2].
  rewrite _searchRestoreKeyEntry_none by (now apply negb_true_iff). auto.
Qed.

End Fallback.

(** C2 (as amended): the fallback keys are tried in the order given and the
    first one with any match decides, whatever keys follow it; the entry
    returned is a listed entry that starts with that key; it has exactly that
    key when some listed entry has; otherwise, when every prefix match carries
    a timestamp, no prefix match is later than the entry returned. *)
Theorem fallback_first_key_exact_then_latest
    (before after : list string) (k : string) (entries : list _content) :
  forallb (fun k' => negb (matchesKey k' entries)) before = true ->
  matchesKey k entries = true ->
  exists found,
    searchRestoreKeyEntry (before ++ k :: after) entries = Some found /\
    In found entries /\ keyStartsWith k found = true /\
    (existsb (exact k) entries = true -> Key found = Some k) /\
    (existsb (exact k) entries = false ->
     forallb (fun e => implb (keyStartsWith k e) (isSome (LastModified e)))
       entries = true ->
     exists t, LastModified found = Some t /\
       forall e t', In e entries -> keyStartsWith k e = true ->
                    LastModified e = Some t' -> t' <= t).
Proof.
  intros Hb Hk. rewrite (searchRestoreKeyEntry_first before after k entries Hb Hk).
  destruct (_searchRestoreKeyEntry_some k entries Hk) as (found & Hf & Hin & Hp).
  exists found. repeat split; try assumption.
  - intros Hex. rewrite _searchRestoreKeyEntry_find in Hf.
    destruct (find (exact k) entries) as [e|] eqn:F.
    + injection Hf as <-. apply find_some in F. now apply strictEq_true.
    + apply existsb_exists in Hex. destruct Hex as (e & He & Hx).
      now rewrite (find_none _ _ F e He) in Hx.
  - intros Hex Hts. rewrite _searchRestoreKeyEntry_find in Hf.
    destruct (find (exact k) entries) as [e|] eqn:F.
    + apply find_some in F. destruct F as [He Hx].
      assert (existsb (exact k) entries = true) by (apply existsb_exists; eauto).
      congruence.
    + apply hd_sort_latest in Hf.
      * destruct Hf as (t & Ht & Hmax). exists t. split; [assumption|].
        intros e t' He Hpe. apply Hmax. apply filter_In; auto.
      * intros e He. apply filter_In in He. destruct He as [He Hpe].
        rewrite forallb_forall in Hts. specialize (Hts e He).
        rewrite Hpe in Hts. destruct (LastModified e); [discriminate | discriminate].
Qed.

Lemma fallback_first_key_exact_then_latest_witness :
  let entries :=
    [ {| Key := Some "app-1"; LastModified := Some 3 |};
      {| Key := Some "app-2"; LastModified := Some 5 |};
      {| Key := Some "lib-1"; LastModified := Some 9 |} ] in
  forallb (fun k' => negb (matchesKey k' entries)) ["web-"] = true /\
  matchesKey "app-" entries = true /\
  exists found,
    searchRestoreKeyEntry (["web-"] ++ "app-" :: ["lib-"]) entries = Some found /\
    In found entries /\ keyStartsWith "app-" found = true /\
    (existsb (exact "app-") entries = true -> Key found = Some "app-") /\
    (existsb (exact "app-") entries = false ->
     forallb (fun e => implb (keyStartsWith "app-" e) (isSome (LastModified e)))
       entries = true ->
     exists t, LastModified found = Some t /\
       forall e t', In e entries -> keyStartsWith "app-" e = true ->
                    LastModified e = Some t' -> t' <= t).
Proof.
  intros entries. split; [reflexivity|]. split; [reflexivity|].
  apply (fallback_first_key_exact_then_latest ["web-"] ["lib-"] "app-" entries);
    reflexivity.
Defined.

(** C2 (as stated) fails: of two prefix matches the first, which carries no
    timestamp, is returned and not the one dated 5. *)
Lemma fallback_latest_not_selected :
  ~ latestSelected "a"
      [ {| Key := Some "ab"; LastModified := None |};
        {| Key := Some "ac"; LastModified := Some 5 |} ].
Proof.
  intros H.
  destruct (H {| Key := Some "ab"; LastModified := None |} eq_refl
              {| Key := Some "ac"; LastModified := Some 5 |} 5)
    as (t' & Ht' & _); simpl; auto; discriminate.
Qed.

(** ** The listing loop *)

Section Listing.

Variable env : Env.
Variable s3Options : S3ClientConfig.
Variable s3BucketName : string.
Variable primaryKey : option string.

Let send := s3Send env s3Options s3BucketName.

Lemma toContent_id (obj : _Object) : toContent obj = obj.
Proof. destruct obj; reflexivity. Qed.

Lemma prepend_nil {A} (m : M A) : prepend [] m = m.
Proof. destruct m; reflexivity. Qed.

Lemma prepend_app {A} (l1 l2 : list Event) (m : M A) :
  prepend l1 (prepend l2 m) = prepend (l1 ++ l2) m.
Proof. unfold prepend; simpl. now rewrite app_assoc. Qed.

(** One turn of the loop. *)
Lemma listObjects_step (fuel : nat) (st : ListState) :
  listObjects env (S fuel) s3Options s3BucketName primaryKey st =
  prepend [Direct (ListObjectsV2Command s3BucketName (nextParam st))]
    match send (nextParam st) with
    | Ok r =>
        match Contents r with
        | None =>
            if negb (List.length (contents st) =? 0)%nat
            then ret (Listed (contents st))
            else throw ("Cannot found object in bucket " ++ s3BucketName)
        | Some objs =>
            match primaryMatch primaryKey objs with
            | Some lastModified =>
                ret (PrimaryFound (s3Entry env primaryKey lastModified))
            | None =>
                if truthyBool (IsTruncated r)
                then listObjects env fuel s3Options s3BucketName primaryKey
                       (advance1 st r)
                else ret (Listed (contents st ++ objectsOf r))
            end
        end
    | Throw e => throw ("Error from S3: " ++ e)
    | OutOfFuel => outOfFuel
    end.
Proof.
  simpl. unfold send, request, rethrow, bind, prepend.
  destruct (s3Send env s3Options s3BucketName (nextParam st)) as [r|e|]; simpl;
    try reflexivity.
  unfold primaryMatch, advance1, objectsOf.
  destruct (Contents r) as [objs|] eqn:C; simpl.
  - destruct (find (fun content => strictEq (Key content) primaryKey) objs) as [f|];
      [destruct (LastModified f)|]; simpl;
      try reflexivity;
      destruct (truthyBool (IsTruncated r)); simpl; try reflexivity;
      destruct (listObjects _ _ _ _ _ _); reflexivity.
  - destruct (negb _); reflexivity.
Qed.

(** While the pages let the loop go on, it goes on: the pages are fetched one
    by one and added to [contents]. *)
Lemma listObjects_continue (pre : list ListObjectsV2CommandOutput)
    (st : ListState) (fuel : nat) :
  paged send (nextParam st) pre ->
  forallb (continues primaryKey) pre = true ->
  listObjects env (List.length pre + fuel) s3Options s3BucketName primaryKey st =
  prepend (listingEvents s3BucketName (nextParam st) pre)
    (listObjects env fuel s3Options s3BucketName primaryKey (advance st pre)).
Proof.
  revert st. induction pre as [|r pre IH]; intros st Hp Hc.
  - simpl. now rewrite prepend_nil.
  - destruct Hp as [Hs Hp]. simpl in Hc. apply andb_prop in Hc.
    destruct Hc as [Hr Hc].
    change (List.length (r :: pre) + fuel)%nat with (S (List.length pre + fuel)).
    rewrite listObjects_step, Hs.
    unfold continues, hasMore in Hr. apply andb_prop in Hr.
    destruct Hr as [Hm Hn]. apply andb_prop in Hm. destruct Hm as [_ Ht].
    destruct (Contents r) as [objs|] eqn:C; [|discriminate].
    destruct (primaryMatch primaryKey objs); [discriminate|].
    rewrite Ht. rewrite IH; [|exact Hp|exact Hc].
    rewrite prepend_app. reflexivity.
Qed.

Lemma contents_advance (pre : list ListObjectsV2CommandOutput) (st : ListState) :
  contents (advance st pre) = (contents st ++ listed pre)%list.
Proof.
  unfold advance. revert st. induction pre as [|r pre IH]; intros st; simpl.
  - now rewrite app_nil_r.
  - rewrite IH. simpl. now rewrite app_assoc.
Qed.

Lemma nextParam_advance1 (st : ListState) (r : ListObjectsV2CommandOutput) :
  nextParam (advance1 st r) = followingParam (nextParam st) r.
Proof. reflexivity. Qed.

Lemma paged_app (param : option string)
    (l1 l2 : list ListObjectsV2CommandOutput) :
  paged send param (l1 ++ l2) <->
  paged send param l1 /\ paged send (paramAfter param l1) l2.
Proof.
  revert param. induction l1 as [|r l1 IH]; intros param; simpl.
  - tauto.
  - rewrite IH. unfold paramAfter. simpl. tauto.
Qed.

Lemma listingEvents_app (param : option string)
    (l1 l2 : list ListObjectsV2CommandOutput) :
  listingEvents s3BucketName param (l1 ++ l2) =
  (listingEvents s3BucketName param l1 ++
   listingEvents s3BucketName (paramAfter param l1) l2)%list.
Proof.
  revert param. induction l1 as [|r l1 IH]; intros param; simpl; [reflexivity|].
  now rewrite IH.
Qed.

Lemma nextParam_advance (pre : list ListObjectsV2CommandOutput) (st : ListState) :
  nextParam (advance st pre) = paramAfter (nextParam st) pre.
Proof.
  unfold advance, paramAfter. revert st.
  induction pre as [|r pre IH]; intros st; simpl; [reflexivity|].
  now rewrite IH.
Qed.

Lemma listed_app (l1 l2 : list ListObjectsV2CommandOutput) :
  listed (l1 ++ l2) = (listed l1 ++ listed l2)%list.
Proof. apply flat_map_app. Qed.

(** A page with a primary match ends the loop at once. *)
Lemma listObjects_primary (pre : list ListObjectsV2CommandOutput)
    (page : ListObjectsV2CommandOutput) (objs : list _Object)
    (lastModified : Z) (fuel : nat) :
  paged send None (pre ++ [page]) ->
  forallb (continues primaryKey) pre = true ->
  Contents page = Some objs ->
  primaryMatch primaryKey objs = Some lastModified ->
  (List.length pre < fuel)%nat ->
  listObjects env fuel s3Options s3BucketName primaryKey initialListState =
  (listingEvents s3BucketName None (pre ++ [page]),
   Ok (PrimaryFound (s3Entry env primaryKey lastModified))).
Proof.
  intros Hp Hc HC Hm Hf.
  replace fuel with (List.length pre + S (fuel - S (List.length pre)))%nat by lia.
  apply paged_app in Hp. destruct Hp as [Hpre [Hpage _]].
  rewrite listObjects_continue by assumption.
  rewrite listObjects_step, nextParam_advance.
  change (nextParam initialListState) with (@None string).
  rewrite Hpage, HC, Hm, listingEvents_app. unfold prepend. simpl.
  reflexivity.
Qed.

(** A page that ends the listing hands all the entries listed to the search
    over the fallback keys. *)
Lemma listObjects_listed (pre : list ListObjectsV2CommandOutput)
    (last : ListObjectsV2CommandOutput) (fuel : nat) :
  paged send None (pre ++ [last]) ->
  forallb (continues primaryKey) pre = true ->
  finishes primaryKey pre last = true ->
  (List.length pre < fuel)%nat ->
  listObjects env fuel s3Options s3BucketName primaryKey initialListState =
  (listingEvents s3BucketName None (pre ++ [last]),
   Ok (Listed (listed (pre ++ [last])))).
Proof.
  intros Hp Hc He Hf.
  replace fuel with (List.length pre + S (fuel - S (List.length pre)))%nat by lia.
  apply paged_app in Hp. destruct Hp as [Hpre [Hpage _]].
  rewrite listObjects_continue by assumption.
  rewrite listObjects_step, nextParam_advance.
  change (nextParam initialListState) with (@None string).
  rewrite Hpage, listingEvents_app, contents_advance, listed_app.
  unfold finishes in He.
  change (contents initialListState ++ listed pre)%list with (listed pre).
  replace (listed [last]) with (objectsOf last)
    by (unfold listed; simpl; now rewrite app_nil_r).
  unfold prepend. simpl.
  destruct (Contents last) as [objs|] eqn:C.
  - apply andb_prop in He. destruct He as [H1 H2].
    destruct (primaryMatch primaryKey objs); [discriminate|].
    apply negb_true_iff in H2. rewrite H2. reflexivity.
  - rewrite He. unfold objectsOf. rewrite C, app_nil_r. reflexivity.
Qed.

(** A first page without [Contents] makes the lookup throw. *)
Lemma listObjects_no_contents (page : ListObjectsV2CommandOutput) (fuel : nat) :
  send None = Ok page ->
  Contents page = None ->
  listObjects env (S fuel) s3Options s3BucketName primaryKey initialListState =
  ([Direct (ListObjectsV2Command s3BucketName None)],
   Throw ("Cannot found object in bucket " ++ s3BucketName)).
Proof.
  intros Hs HC. rewrite listObjects_step.
  change (nextParam initialListState) with (@None string).
  rewrite Hs, HC. reflexivity.
Qed.

End Listing.

(** ** Lookup in the bucket *)

Section BucketLookup.

Variable env : Env.
Variable s3Options : S3ClientConfig.
Variable s3BucketName : string.

Let send := s3Send env s3Options s3BucketName.

Lemma bind_listed (fuel : nat) (keys paths : list string) (evs : list Event)
    (out : ListOutcome) :
  listObjects env fuel s3Options s3BucketName (hd_error keys) initialListState
    = (evs, Ok out) ->
  getCacheEntryS3 env fuel s3Options s3BucketName keys paths =
  (evs,
   Ok match out with
      | PrimaryFound entry => Some entry
      | Listed contents => fallbackEntry env keys contents
      end).
Proof.
  intros H. unfold getCacheEntryS3, bind. rewrite H.
  destruct out as [entry|cs]; simpl.
  - now rewrite app_nil_r.
  - unfold fallbackEntry.
    destruct (searchRestoreKeyEntry (tl keys) cs) as [f|]; simpl;
      [destruct (LastModified f)|]; simpl; now rewrite app_nil_r.
Qed.

Lemma length_listingEvents (param : option string)
    (pages : list ListObjectsV2CommandOutput) :
  List.length (listingEvents s3BucketName param pages) = List.length pages.
Proof.
  revert param. induction pages as [|r pages IH]; intros param; simpl; auto.
Qed.

(** C1 (as amended): when the pages before [page] let the listing go on and
    the first object of [page] whose key is [keys[0]] carries a timestamp, the
    lookup returns the entry of the primary key with that timestamp, whatever
    else is listed, and the request that fetched [page] is the last one
    sent. *)
Theorem primary_match_returned_at_once
    (keys paths : list string) (pre : list ListObjectsV2CommandOutput)
    (page : ListObjectsV2CommandOutput) (objs : list _Object)
    (lastModified : Z) (fuel : nat) :
  paged send None (pre ++ [page]) ->
  forallb (continues (hd_error keys)) pre = true ->
  Contents page = Some objs ->
  primaryMatch (hd_error keys) objs = Some lastModified ->
  (List.length pre < fuel)%nat ->
  getCacheEntryS3 env fuel s3Options s3BucketName keys paths =
    (listingEvents s3BucketName None (pre ++ [page]),
     Ok (Some (s3Entry env (hd_error keys) lastModified))) /\
  List.length (events (getCacheEntryS3 env fuel s3Options s3BucketName keys paths))
    = S (List.length pre).
Proof.
  intros Hp Hc HC Hm Hf.
  assert (E : getCacheEntryS3 env fuel s3Options s3BucketName keys paths =
              (listingEvents s3BucketName None (pre ++ [page]),
               Ok (Some (s3Entry env (hd_error keys) lastModified)))).
  { apply (bind_listed fuel keys paths _
             (PrimaryFound (s3Entry env (hd_error keys) lastModified))).
    eapply listObjects_primary; eassumption. }
  split; [exact E|]. rewrite E. unfold events. simpl.
  rewrite length_listingEvents, length_app. simpl. lia.
Qed.

Lemma primaryMatch_none (primaryKey : option string)
    (pages : list ListObjectsV2CommandOutput)
    (page : ListObjectsV2CommandOutput) (objs : list _Object) :
  primaryUndated primaryKey (listed pages) = true ->
  In page pages -> Contents page = Some objs ->
  primaryMatch primaryKey objs = None.
Proof.
  unfold primaryUndated. intros H Hin HC. unfold primaryMatch.
  destruct (find (fun content => strictEq (Key content) primaryKey) objs)
    as [f|] eqn:F; [|reflexivity].
  apply find_some in F. destruct F as [Hf Hk].
  rewrite forallb_forall in H. specialize (H f).
  rewrite Hk in H. simpl in H.
  destruct (LastModified f); [|reflexivity].
  discriminate H. unfold listed. apply in_flat_map. exists page.
  split; [assumption|]. unfold objectsOf. rewrite HC.
  apply in_map_iff. exists f. split; [apply toContent_id | assumption].
Qed.

Lemma continues_of_hasMore (primaryKey : option string)
    (pages pre : list ListObjectsV2CommandOutput) :
  primaryUndated primaryKey (listed pages) = true ->
  incl pre pages ->
  forallb hasMore pre = true ->
  forallb (continues primaryKey) pre = true.
Proof.
  intros H Hi Hm. apply forallb_forall. intros r Hr.
  rewrite forallb_forall in Hm. specialize (Hm r Hr).
  unfold continues. rewrite Hm. simpl.
  destruct (Contents r) as [objs|] eqn:C.
  - erewrite primaryMatch_none; eauto.
  - unfold hasMore in Hm. rewrite C in Hm. discriminate.
Qed.

(** The listing ends with [last]: it is not truncated, and it has [Contents]
    unless earlier pages listed something. *)
Lemma finishes_of_stop (primaryKey : option string)
    (pre : list ListObjectsV2CommandOutput) (last : ListObjectsV2CommandOutput) :
  primaryUndated primaryKey (listed (pre ++ [last])) = true ->
  truthyBool (IsTruncated last) = false ->
  isSome (Contents last) || negb (List.length (listed pre) =? 0)%nat = true ->
  finishes primaryKey pre last = true.
Proof.
  intros H Ht Hc. unfold finishes.
  destruct (Contents last) as [objs|] eqn:C; simpl in Hc; [|assumption].
  erewrite primaryMatch_none; eauto; [|apply in_or_app; right; now left].
  now rewrite Ht.
Qed.

(** A page without [Contents] before anything was listed makes the lookup
    throw; so does a bucket without objects. *)
Lemma getCacheEntryS3_no_contents (keys paths : list string)
    (page : ListObjectsV2CommandOutput) (fuel : nat) :
  send None = Ok page ->
  Contents page = None ->
  outcome (getCacheEntryS3 env (S fuel) s3Options s3BucketName keys paths) =
  Throw ("Cannot found object in bucket " ++ s3BucketName).
Proof.
  intros Hs HC. unfold getCacheEntryS3.
  rewrite (listObjects_no_contents env s3Options s3BucketName (hd_error keys)
             page fuel Hs HC).
  reflexivity.
Qed.

Lemma primaryUndated_of_absent (primaryKey : option string)
    (entries : list _content) :
  existsb (fun c => strictEq (Key c) primaryKey) entries = false ->
  primaryUndated primaryKey entries = true.
Proof.
  intros H. apply forallb_forall. intros c Hc.
  destruct (strictEq (Key c) primaryKey) eqn:E; [|reflexivity].
  assert (existsb (fun c => strictEq (Key c) primaryKey) entries = true)
    by (apply existsb_exists; eauto).
  congruence.
Qed.

(** Without a dated primary match the lookup is decided by the search over
    the fallback keys. *)
Lemma getCacheEntryS3_fallback (keys paths : list string)
    (pre : list ListObjectsV2CommandOutput) (last : ListObjectsV2CommandOutput)
    (fuel : nat) :
  paged send None (pre ++ [last]) ->
  forallb hasMore pre = true ->
  truthyBool (IsTruncated last) = false ->
  isSome (Contents last) || negb (List.length (listed pre) =? 0)%nat = true ->
  primaryUndated (hd_error keys) (listed (pre ++ [last])) = true ->
  (List.length pre < fuel)%nat ->
  getCacheEntryS3 env fuel s3Options s3BucketName keys paths =
  (listingEvents s3BucketName None (pre ++ [last]),
   Ok (fallbackEntry env keys (listed (pre ++ [last])))).
Proof.
  intros Hp Hm Ht Hc Hu Hf.
  apply (bind_listed fuel keys paths _ (Listed (listed (pre ++ [last])))).
  apply listObjects_listed; try assumption.
  - eapply continues_of_hasMore; eauto. apply incl_appl, incl_refl.
  - now apply finishes_of_stop.
Qed.

(** C5 (as amended): when the listing ends with a page that carries
    [Contents], or after some object has been listed, and no listed entry has
    the primary key nor starts with a fallback key, the lookup returns none. *)
Theorem miss_returns_none_once_listed
    (keys paths : list string) (pre : list ListObjectsV2CommandOutput)
    (last : ListObjectsV2CommandOutput) (fuel : nat) :
  paged send None (pre ++ [last]) ->
  forallb hasMore pre = true ->
  truthyBool (IsTruncated last) = false ->
  isSome (Contents last) || negb (List.length (listed pre) =? 0)%nat = true ->
  existsb (fun c => strictEq (Key c) (hd_error keys)) (listed (pre ++ [last])) = false ->
  forallb (fun k => negb (matchesKey k (listed (pre ++ [last])))) (tl keys) = true ->
  (List.length pre < fuel)%nat ->
  getCacheEntryS3 env fuel s3Options s3BucketName keys paths =
  (listingEvents s3BucketName None (pre ++ [last]), Ok None).
Proof.
  intros Hp Hm Ht Hc Hk Hfb Hf.
  rewrite (getCacheEntryS3_fallback keys paths pre last fuel); auto.
  - unfold fallbackEntry. now rewrite searchRestoreKeyEntry_none.
  - now apply primaryUndated_of_absent.
Qed.

Lemma searchRestoreKeyEntry_In (keys : list string) (entries : list _content)
    (found : _content) :
  searchRestoreKeyEntry keys entries = Some found -> In found entries.
Proof.
  induction keys as [|k keys IH]; simpl; [discriminate|].
  destruct (_searchRestoreKeyEntry k entries) as [f|] eqn:E; [|assumption].
  intros [= <-]. rewrite _searchRestoreKeyEntry_find in E.
  destruct (find (exact k) entries) as [e|] eqn:F.
  - injection E as <-. now apply find_some in F.
  - apply hd_sort_In, filter_In in E. tauto.
Qed.

(** What the loop hands on was served by the bucket. *)
Lemma listObjects_served (primaryKey : option string) (fuel : nat)
    (st : ListState) (out : ListOutcome) :
  (forall c, In c (contents st) -> served send c) ->
  outcome (listObjects env fuel s3Options s3BucketName primaryKey st) = Ok out ->
  match out with
  | PrimaryFound entry =>
      exists obj t, served send obj /\ Key obj = primaryKey /\
                    LastModified obj = Some t /\
                    entry = s3Entry env primaryKey t
  | Listed cs => forall c, In c cs -> served send c
  end.
Proof.
  revert st. induction fuel as [|fuel IH]; intros st Hst; [discriminate|].
  rewrite listObjects_step. unfold prepend, outcome. simpl.
  fold send. destruct (send (nextParam st)) as [r|e|] eqn:S; try discriminate.
  assert (Hr : forall c, In c (contents st ++ objectsOf r) -> served send c).
  { intros c Hc. apply in_app_or in Hc. destruct Hc as [Hc|Hc]; [auto|].
    unfold objectsOf in Hc. destruct (Contents r) as [objs|] eqn:C; [|contradiction].
    apply in_map_iff in Hc. destruct Hc as (o & <- & Ho). rewrite toContent_id.
    exists (nextParam st), r, objs. auto. }
  destruct (Contents r) as [objs|] eqn:C.
  - destruct (primaryMatch primaryKey objs) as [t|] eqn:P.
    + intros [= <-]. unfold primaryMatch in P.
      destruct (find (fun content => strictEq (Key content) primaryKey) objs)
        as [f|] eqn:F; [|discriminate].
      apply find_some in F. destruct F as [Hf Hk]. apply strictEq_true in Hk.
      exists f, t. repeat split; auto. exists (nextParam st), r, objs. auto.
    + destruct (truthyBool (IsTruncated r)).
      * intros H. apply (IH (advance1 st r)); [exact Hr | exact H].
      * intros [= <-]. exact Hr.
  - destruct (negb _); [|discriminate]. intros [= <-]. exact Hst.
Qed.

(** An entry is returned only for an object of the bucket that carries a
    timestamp. *)
Lemma getCacheEntryS3_dated (keys paths : list string) (fuel : nat)
    (entry : ArtifactCacheEntry) :
  outcome (getCacheEntryS3 env fuel s3Options s3BucketName keys paths)
    = Ok (Some entry) ->
  exists obj t, served send obj /\ LastModified obj = Some t /\
                cacheKey entry = Key obj /\
                creationTime entry = Some (dateToString env t).
Proof.
  unfold getCacheEntryS3, bind, outcome.
  destruct (listObjects env fuel s3Options s3BucketName (hd_error keys)
              initialListState) as [l [out|e|]] eqn:L; try discriminate.
  pose proof (listObjects_served (hd_error keys) fuel initialListState out) as S.
  unfold outcome in S. rewrite L in S. specialize (S (fun c H => match H with end) eq_refl).
  destruct out as [e|cs]; simpl.
  - intros [= <-]. destruct S as (obj & t & Hs & Hk & Ht & ->).
    exists obj, t. simpl. auto.
  - destruct (searchRestoreKeyEntry (tl keys) cs) as [f|] eqn:F; [|discriminate].
    destruct (LastModified f) as [t|] eqn:T; [|discriminate].
    simpl. intros [= <-]. exists f, t. simpl.
    apply searchRestoreKeyEntry_In in F. auto.
Qed.

(** C10: an entry is returned only for an object with a timestamp; objects
    with the primary key and no timestamp do not end the listing, the lookup
    goes on to the fallback keys; and when the entry the fallback search
    selects has no timestamp the lookup returns none. *)
Theorem entry_requires_LastModified (keys paths : list string) (fuel : nat) :
  (forall entry,
     outcome (getCacheEntryS3 env fuel s3Options s3BucketName keys paths)
       = Ok (Some entry) ->
     exists obj t, served send obj /\ LastModified obj = Some t /\
                   cacheKey entry = Key obj /\
                   creationTime entry = Some (dateToString env t)) /\
  (forall pre last,
     paged send None (pre ++ [last]) ->
     forallb hasMore pre = true ->
     truthyBool (IsTruncated last) = false ->
     isSome (Contents last) || negb (List.length (listed pre) =? 0)%nat = true ->
     primaryUndated (hd_error keys) (listed (pre ++ [last])) = true ->
     (List.length pre < fuel)%nat ->
     outcome (getCacheEntryS3 env fuel s3Options s3BucketName keys paths)
       = Ok (fallbackEntry env keys (listed (pre ++ [last]))) /\
     forall found,
       searchRestoreKeyEntry (tl keys) (listed (pre ++ [last])) = Some found ->
       LastModified found = None ->
       outcome (getCacheEntryS3 env fuel s3Options s3BucketName keys paths)
         = Ok None).
Proof.
  split; [apply getCacheEntryS3_dated|].
  intros pre last Hp Hm Ht Hc Hu Hf.
  rewrite (getCacheEntryS3_fallback keys paths pre last fuel) by assumption.
  split; [reflexivity|]. intros found Hs Hl. unfold outcome, fallbackEntry. simpl.
  now rewrite Hs, Hl.
Qed.

End BucketLookup.

Lemma primary_match_returned_at_once_witness :
  paged (s3Send threePages exampleS3Options "bucket") None ([page1] ++ [page2]) /\
  forallb (continues (hd_error ["k-v2"; "k-v1"])) [page1] = true /\
  Contents page2 = Some [object "k-v2" 1] /\
  primaryMatch (hd_error ["k-v2"; "k-v1"]) [object "k-v2" 1] = Some 1 /\
  (List.length [page1] < 5)%nat /\
  getCacheEntryS3 threePages 5 exampleS3Options "bucket" ["k-v2"; "k-v1"] [] =
    (listingEvents "bucket" None ([page1] ++ [page2]),
     Ok (Some (s3Entry threePages (hd_error ["k-v2"; "k-v1"]) 1))) /\
  List.length (events (getCacheEntryS3 threePages 5 exampleS3Options "bucket"
                         ["k-v2"; "k-v1"] []))
    = S (List.length [page1]).
Proof.
  split; [simpl; auto|]. split; [reflexivity|]. split; [reflexivity|].
  split; [reflexivity|]. split; [simpl; lia|].
  apply (primary_match_returned_at_once threePages exampleS3Options "bucket"
           ["k-v2"; "k-v1"] [] [page1] page2 [object "k-v2" 1] 1 5).
  - simpl; auto.
  - reflexivity.
  - reflexivity.
  - reflexivity.
  - simpl; lia.
Defined.

(** C1 (as stated) fails: the only object with the primary key has no
    timestamp, and the lookup returns none. *)
Lemma primary_without_timestamp_not_returned :
  ~ primaryAlwaysReturned (s3Env undatedPage []) exampleS3Options "bucket"
      ["k"] [] undatedPage.
Proof.
  intros H.
  destruct (H (conj eq_refl I) eq_refl eq_refl eq_refl 1%nat (Nat.lt_0_succ 0))
    as (entry & He & _).
  vm_compute in He. discriminate.
Qed.

Lemma miss_returns_none_once_listed_witness :
  paged (s3Send threePages exampleS3Options "bucket") None
    ([page1; page2] ++ [page3]) /\
  forallb hasMore [page1; page2] = true /\
  truthyBool (IsTruncated page3) = false /\
  isSome (Contents page3) || negb (List.length (listed [page1; page2]) =? 0)%nat
    = true /\
  existsb (fun c => strictEq (Key c) (hd_error ["z-v2"; "z-"]))
    (listed ([page1; page2] ++ [page3])) = false /\
  forallb (fun k => negb (matchesKey k (listed ([page1; page2] ++ [page3]))))
    (tl ["z-v2"; "z-"]) = true /\
  (List.length [page1; page2] < 5)%nat /\
  getCacheEntryS3 threePages 5 exampleS3Options "bucket" ["z-v2"; "z-"] [] =
    (listingEvents "bucket" None ([page1; page2] ++ [page3]), Ok None).
Proof.
  split; [simpl; auto|]. do 5 (split; [reflexivity|]). split; [simpl; lia|].
  apply (miss_returns_none_once_listed threePages exampleS3Options "bucket"
           ["z-v2"; "z-"] [] [page1; page2] page3 5);
    try reflexivity; simpl; auto; lia.
Defined.

(** C5 (as stated) fails: the bucket has no objects, nothing matches, and the
    lookup throws. *)
Lemma empty_bucket_lookup_throws :
  ~ missReturnsNone (s3Env emptyBucketPage []) exampleS3Options "bucket"
      ["k"; "k-"] [] emptyBucketPage.
Proof.
  intros H.
  specialize (H (conj eq_refl I) eq_refl eq_refl eq_refl eq_refl 1%nat
                (Nat.lt_0_succ 0)).
  vm_compute in H. discriminate.
Qed.

Lemma entry_requires_LastModified_witness :
  paged (s3Send (s3Env undatedPage []) exampleS3Options "bucket") None
    ([] ++ [undatedPage]) /\
  forallb hasMore [] = true /\
  truthyBool (IsTruncated undatedPage) = false /\
  isSome (Contents undatedPage) || negb (List.length (listed []) =? 0)%nat = true /\
  primaryUndated (hd_error ["k"; "k-"]) (listed ([] ++ [undatedPage])) = true /\
  (List.length (@nil ListObjectsV2CommandOutput) < 1)%nat /\
  outcome (getCacheEntryS3 (s3Env undatedPage []) 1 exampleS3Options "bucket"
             ["k"; "k-"] [])
    = Ok (fallbackEntry (s3Env undatedPage []) ["k"; "k-"]
            (listed ([] ++ [undatedPage]))) /\
  forall found,
    searchRestoreKeyEntry (tl ["k"; "k-"]) (listed ([] ++ [undatedPage]))
      = Some found ->
    LastModified found = None ->
    outcome (getCacheEntryS3 (s3Env undatedPage []) 1 exampleS3Options "bucket"
               ["k"; "k-"] [])
      = Ok None.
Proof.
  split; [simpl; auto|]. do 4 (split; [reflexivity|]). split; [simpl; lia|].
  apply (proj2 (entry_requires_LastModified (s3Env undatedPage [])
                  exampleS3Options "bucket" ["k"; "k-"] [] 1) [] undatedPage);
    try reflexivity; simpl; auto.
Defined.

(** ** Lookup and reservation at the cache service *)

Arguments isSuccessStatusCode : simpl never.
Arguments truthyString : simpl never.
Arguments numToString : simpl never.

Ltac break_if :=
  match goal with
  | |- context [if ?b then _ else _] => destruct b eqn:?
  end.

Lemma events_bind {A B} (m : M A) (f : A -> M B) :
  events (bind m f) =
  (events m ++ match outcome m with Ok a => events (f a) | _ => [] end)%list.
Proof.
  destruct m as [l [a|e|]]; simpl; [|now rewrite app_nil_r..].
  unfold events. destruct (f a); reflexivity.
Qed.

Lemma bind_events_all {A B} (P : Event -> bool) (m : M A) (f : A -> M B) :
  forallb P (events m) = true ->
  (forall a, forallb P (events (f a)) = true) ->
  forallb P (events (bind m f)) = true.
Proof.
  intros Hm Hf. rewrite events_bind, forallb_app, Hm. simpl.
  destruct (outcome m); auto.
Qed.

(** Whatever is sent from inside the retry wrapper is marked so. *)
Lemma retry_events_retried {A} (name : string) (op : M A) :
  forallb isRetried (events (retry name op)) = true.
Proof.
  destruct op as [l r]. unfold retry, events. simpl.
  induction l as [|[c|n c] l IH]; simpl; auto.
Qed.

Section CacheService.

Variable env : Env.

Lemma getCacheApiUrl_ok (resource : string) :
  getCacheServiceURL env <> "" ->
  getCacheApiUrl env resource =
  ret (getCacheServiceURL env ++ "_apis/artifactcache/" ++ resource).
Proof.
  intros H. unfold getCacheApiUrl.
  destruct (String.eqb_spec (getCacheServiceURL env) ""); [contradiction|reflexivity].
Qed.

(** The lookup at the cache service: one retried GET, then the status of the
    answer decides. *)
Lemma getCacheEntry_rest (fuel : nat) (keys paths : list string)
    (options : option InternalCacheOptions)
    (s3Options : option S3ClientConfig) (s3BucketName : option string) :
  objectStore s3Options s3BucketName = None ->
  getCacheServiceURL env <> "" ->
  getCacheEntry env fuel keys paths options s3Options s3BucketName =
  prepend
    [Retried "getCacheEntry"
       (GetJson (lookupUrl env keys (versionOf env paths options)))]
    match getCacheEntryResponse env
            (lookupUrl env keys (versionOf env paths options)) with
    | Ok response =>
        if statusCode response =? 204 then
          (if isDebug env
           then printCachesListForDiagnostics env (hd_error keys)
                  (versionOf env paths options)
           else ret tt) ;;;
          ret None
        else if negb (isSuccessStatusCode (Some (statusCode response))) then
          throw ("Cache service responded with " ++
                 numToString (statusCode response))
        else if negb (truthyString
                        match result response with
                        | Some e => archiveLocation e
                        | None => None
                        end)
        then throw "Cache not found."
        else ret (result response)
    | Throw e => throw ("getCacheEntry failed: " ++ e)
    | OutOfFuel => outOfFuel
    end.
Proof.
  intros Hs Hu. unfold getCacheEntry. rewrite Hs.
  rewrite getCacheApiUrl_ok by assumption.
  fold (versionOf env paths options).
  unfold lookupUrl, retryTypedResponse, retry, request, prepend, bind at 1 2.
  simpl.
  destruct (getCacheEntryResponse env _) as [response|e|]; simpl; try reflexivity.
  destruct (statusCode response =? 204).
  - destruct (_ ;;; ret None). reflexivity.
  - repeat break_if; reflexivity.
Qed.

Lemma printCachesListForDiagnostics_events (key : option string) (version : string) :
  forallb isRetried (events (printCachesListForDiagnostics env key version)) = true.
Proof.
  unfold printCachesListForDiagnostics.
  apply bind_events_all; [apply retry_events_retried | reflexivity].
Qed.

(** C7 (as amended): at the cache service, a 204 answer makes the lookup return
    none when debugging is off or the diagnostic listing of the caches
    completes; another status that is not 2xx makes it throw; a 2xx answer
    other than 204 without an archive location, or with an empty one, makes
    it throw; an entry that is returned has a non-empty archive location. *)
Theorem rest_lookup_by_status (fuel : nat) (keys paths : list string)
    (options : option InternalCacheOptions)
    (s3Options : option S3ClientConfig) (s3BucketName : option string)
    (response : TypedResponse ArtifactCacheEntry) :
  objectStore s3Options s3BucketName = None ->
  getCacheServiceURL env <> "" ->
  getCacheEntryResponse env (lookupUrl env keys (versionOf env paths options))
    = Ok response ->
  let lookup :=
    outcome (getCacheEntry env fuel keys paths options s3Options s3BucketName) in
  (statusCode response = 204 ->
   isDebug env = false \/
   outcome (printCachesListForDiagnostics env (hd_error keys)
              (versionOf env paths options)) = Ok tt ->
   lookup = Ok None) /\
  (statusCode response <> 204 ->
   isSuccessStatusCode (Some (statusCode response)) = false ->
   lookup = Throw ("Cache service responded with " ++
                   numToString (statusCode response))) /\
  (statusCode response <> 204 ->
   isSuccessStatusCode (Some (statusCode response)) = true ->
   truthyString (match result response with
                 | Some e => archiveLocation e
                 | None => None
                 end) = false ->
   lookup = Throw "Cache not found.") /\
  (forall entry, lookup = Ok (Some entry) ->
                 exists location,
                   archiveLocation entry = Some location /\ location <> "").
Proof.
  intros Hs Hu Hr lookup. subst lookup.
  rewrite getCacheEntry_rest by assumption. rewrite Hr.
  unfold outcome, prepend. simpl. repeat split.
  - intros H204 Hd. rewrite H204. simpl.
    destruct Hd as [Hd|Hd].
    + rewrite Hd. reflexivity.
    + destruct (isDebug env); [|reflexivity].
      unfold outcome in Hd. unfold bind.
      destruct (printCachesListForDiagnostics env _ _) as [l r].
      simpl in Hd. subst r. reflexivity.
  - intros H204 Hc. apply Z.eqb_neq in H204. rewrite H204, Hc. reflexivity.
  - intros H204 Hc Ha. apply Z.eqb_neq in H204. rewrite H204, Hc, Ha. reflexivity.
  - intros entry.
    destruct (statusCode response =? 204).
    + unfold bind. destruct (if isDebug env then _ else _) as [l [[]|e|]];
        intros H; cbn in H; discriminate H.
    + destruct (negb (isSuccessStatusCode _)); [discriminate|].
      destruct (result response) as [e|]; [|discriminate].
      unfold truthyString.
      destruct (archiveLocation e) as [loc|] eqn:A; [|discriminate].
      destruct (String.eqb_spec loc ""); [discriminate|].
      intros [= <-]. eauto.
Qed.

(** C9: with an object-store configuration and a bucket name, the reservation
    sends nothing and reports status 200 without a cache id. *)
Theorem reserveCache_object_store_noop (key : string) (paths : list string)
    (options : option InternalCacheOptions)
    (s3Options : S3ClientConfig) (s3BucketName : string) :
  s3BucketName <> "" ->
  reserveCache env key paths options (Some s3Options) (Some s3BucketName) =
  ([], Ok {| statusCode := 200; result := None; headers := [] |}).
Proof.
  intros H. unfold reserveCache, objectStore.
  destruct (String.eqb_spec s3BucketName ""); [contradiction|reflexivity].
Qed.

Lemma reserveCache_rest_events (key : string) (paths : list string)
    (options : option InternalCacheOptions)
    (s3Options : option S3ClientConfig) (s3BucketName : option string) :
  objectStore s3Options s3BucketName = None ->
  forallb isRetried
    (events (reserveCache env key paths options s3Options s3BucketName)) = true.
Proof.
  intros Hs. unfold reserveCache. rewrite Hs. apply retry_events_retried.
Qed.

Lemma getCacheEntry_rest_events (fuel : nat) (keys paths : list string)
    (options : option InternalCacheOptions)
    (s3Options : option S3ClientConfig) (s3BucketName : option string) :
  objectStore s3Options s3BucketName = None ->
  forallb isRetried
    (events (getCacheEntry env fuel keys paths options s3Options s3BucketName))
  = true.
Proof.
  intros Hs. unfold getCacheEntry. rewrite Hs.
  apply bind_events_all; [apply retry_events_retried|].
  intros response. destruct (statusCode response =? 204).
  - apply bind_events_all; [|reflexivity].
    destruct (isDebug env);
      [apply printCachesListForDiagnostics_events | reflexivity].
  - repeat break_if; reflexivity.
Qed.

Lemma createReadStream_ok (start end_ : Z) :
  0 <= start <= end_ -> createReadStream start end_ = ret tt.
Proof.
  intros H. unfold createReadStream.
  destruct (Z.ltb_spec start 0); [lia|].
  destruct (Z.ltb_spec end_ 0); [lia|].
  destruct (Z.ltb_spec end_ start); [lia | reflexivity].
Qed.

Lemma createReadStream_throws (start end_ : Z) :
  end_ < start \/ start < 0 -> exists msg, createReadStream start end_ = throw msg.
Proof.
  intros H. unfold createReadStream.
  destruct (Z.ltb_spec start 0); [eauto|].
  destruct (Z.ltb_spec end_ 0); [eauto|].
  destruct (Z.ltb_spec end_ start); [eauto | lia].
Qed.

(** A range that can be read is sent, once and through the retry wrapper. *)
Lemma uploadChunk_events (resourceUrl : string) (start end_ : Z) :
  0 <= start <= end_ ->
  events (chunkUpload env resourceUrl start end_) =
  [Retried ("uploadChunk (start: " ++ numToString start ++ ", end: " ++
            numToString end_ ++ ")")
     (SendStreamPATCH resourceUrl start end_)].
Proof.
  intros H. unfold chunkUpload, uploadChunk.
  rewrite createReadStream_ok by assumption. rewrite events_bind.
  unfold retryHttpClientResponse, retry, request, events, outcome. simpl.
  destruct (uploadChunkResponse env resourceUrl start end_) as [c|e|];
    try reflexivity.
  destruct (negb (isSuccessStatusCode c)); reflexivity.
Qed.

(** A range that cannot be read is not sent, and the chunk fails. *)
Lemma uploadChunk_unsent (resourceUrl : string) (start end_ : Z) :
  end_ < start \/ start < 0 ->
  exists msg, chunkUpload env resourceUrl start end_ = ([], Throw msg).
Proof.
  intros H. unfold chunkUpload, uploadChunk.
  destruct (createReadStream_throws start end_ H) as (msg & ->).
  eexists. reflexivity.
Qed.

Lemma uploadChunk_events_retried (resourceUrl : string) (start end_ : Z) :
  forallb isRetried (events (chunkUpload env resourceUrl start end_)) = true.
Proof.
  destruct (Z.lt_ge_cases end_ start) as [H|H];
    [|destruct (Z.lt_ge_cases start 0) as [H'|H']].
  - destruct (uploadChunk_unsent resourceUrl start end_ (or_introl H)) as (m & ->).
    reflexivity.
  - destruct (uploadChunk_unsent resourceUrl start end_ (or_intror H')) as (m & ->).
    reflexivity.
  - rewrite uploadChunk_events by lia. reflexivity.
Qed.

Lemma uploadChunk_events_no_commit (resourceUrl : string) (start end_ : Z) :
  forallb (fun e => negb (isCommit e))
    (events (chunkUpload env resourceUrl start end_)) = true.
Proof.
  destruct (Z.lt_ge_cases end_ start) as [H|H];
    [|destruct (Z.lt_ge_cases start 0) as [H'|H']].
  - destruct (uploadChunk_unsent resourceUrl start end_ (or_introl H)) as (m & ->).
    reflexivity.
  - destruct (uploadChunk_unsent resourceUrl start end_ (or_intror H')) as (m & ->).
    reflexivity.
  - rewrite uploadChunk_events by lia. reflexivity.
Qed.

Lemma commitCache_events (cacheId filesize : Z) :
  forallb isRetried (events (commitCache env cacheId filesize)) = true.
Proof. apply retry_events_retried. Qed.

End CacheService.

(** ** The upload of the archive in chunks *)

Lemma bind_ret {A B} (a : A) (f : A -> M B) : bind (ret a) f = f a.
Proof. unfold bind, ret. destruct (f a). reflexivity. Qed.

Lemma newArrayKeys_ok (concurrency : Z) :
  0 <= concurrency <= 4294967295 ->
  newArrayKeys concurrency = ret (seq 0 (Z.to_nat concurrency)).
Proof.
  intros H. unfold newArrayKeys.
  destruct (Z.ltb_spec concurrency 0); [lia|].
  destruct (Z.ltb_spec 4294967295 concurrency); [lia | reflexivity].
Qed.

Lemma newArrayKeys_throws (concurrency : Z) :
  concurrency < 0 \/ 4294967295 < concurrency ->
  newArrayKeys concurrency = throw "Invalid array length".
Proof.
  intros H. unfold newArrayKeys.
  destruct (Z.ltb_spec concurrency 0); [reflexivity|].
  destruct (Z.ltb_spec 4294967295 concurrency); [reflexivity | lia].
Qed.

Lemma newArrayKeys_events (concurrency : Z) :
  events (newArrayKeys concurrency) = [].
Proof.
  unfold newArrayKeys.
  destruct ((concurrency <? 0) || (4294967295 <? concurrency)); reflexivity.
Qed.

Lemma ranges_app (l1 l2 : list Event) :
  ranges (l1 ++ l2) = (ranges l1 ++ ranges l2)%list.
Proof.
  induction l1 as [|[c|n c] l1 IH]; simpl; [reflexivity| |];
    destruct c; simpl; now rewrite ?IH.
Qed.

Lemma contiguous_snoc (lo mid e : Z) (rs : list (Z * Z)) :
  contiguous lo rs mid -> mid <= e ->
  contiguous lo (rs ++ [(mid, e)]) (e + 1).
Proof.
  revert lo. induction rs as [|[s e'] rs IH]; intros lo; simpl.
  - intros -> He. auto.
  - intros (-> & Hle & Hc) He. auto.
Qed.

Lemma contiguous_le (lo hi : Z) (rs : list (Z * Z)) :
  contiguous lo rs hi -> lo <= hi.
Proof.
  revert lo. induction rs as [|[s e] rs IH]; intros lo; simpl.
  - lia.
  - intros (-> & Hle & Hc). apply IH in Hc. lia.
Qed.

(** Contiguous ranges add up to the length of what they cover. *)
Lemma contiguous_totalBytes (lo hi : Z) (rs : list (Z * Z)) :
  contiguous lo rs hi -> totalBytes rs = hi - lo.
Proof.
  revert lo. induction rs as [|[s e] rs IH]; intros lo; simpl.
  - lia.
  - intros (-> & Hle & Hc). rewrite (IH _ Hc). lia.
Qed.

(** A byte offset outside of what contiguous ranges cover is in none of
    them; one inside is in exactly one. *)
Lemma contiguous_covering_out (lo hi b : Z) (rs : list (Z * Z)) :
  contiguous lo rs hi -> b < lo \/ hi <= b -> covering b rs = O.
Proof.
  unfold covering. revert lo. induction rs as [|[s e] rs IH]; intros lo; simpl.
  - reflexivity.
  - intros (-> & Hle & Hc) Hb. pose proof (contiguous_le _ _ _ Hc).
    destruct (Z.leb_spec lo b); destruct (Z.leb_spec b e); simpl;
      try lia; apply (IH (e + 1)); auto; lia.
Qed.

Lemma contiguous_covering_in (lo hi b : Z) (rs : list (Z * Z)) :
  contiguous lo rs hi -> lo <= b < hi -> covering b rs = 1%nat.
Proof.
  revert lo. induction rs as [|[s e] rs IH]; intros lo; simpl.
  - lia.
  - intros (-> & Hle & Hc) Hb. unfold covering. simpl.
    destruct (Z.leb_spec lo b); [|lia]. destruct (Z.leb_spec b e); simpl.
    + f_equal. apply (contiguous_covering_out (e + 1) hi); auto. lia.
    + apply (IH (e + 1)); auto. lia.
Qed.

Section Upload.

Variable env : Env.
Variables fileSize maxChunkSize : Z.
Variable resourceUrl : string.

Hypothesis maxChunkSize_pos : maxChunkSize >= 1.
Hypothesis fileSize_nonneg : 0 <= fileSize.

Let loop := workerLoop env fileSize maxChunkSize resourceUrl.
Let start := startWorker env fileSize maxChunkSize resourceUrl.
Let complete := completeWorker env fileSize maxChunkSize resourceUrl.

Lemma workerLoop_claim (offset : Z) :
  offset < fileSize ->
  loop offset =
  (InFlight (outcome (chunkUpload env resourceUrl offset
                        (offset + Z.min (fileSize - offset) maxChunkSize - 1))),
   offset + maxChunkSize,
   events (chunkUpload env resourceUrl offset
             (offset + Z.min (fileSize - offset) maxChunkSize - 1))).
Proof.
  intros H. unfold loop, workerLoop.
  destruct (Z.ltb_spec offset fileSize); [reflexivity | lia].
Qed.

Lemma workerLoop_done (offset : Z) :
  fileSize <= offset -> loop offset = (Resolved, offset, []).
Proof.
  intros H. unfold loop, workerLoop.
  destruct (Z.ltb_spec offset fileSize); [lia | reflexivity].
Qed.


Lemma In_setWorker (ws : list Worker) (i : nat) (w w' : Worker) :
  In w (setWorker ws i w') -> w = w' \/ In w ws.
Proof.
  revert i. induction ws as [|x ws IH]; intros i; simpl; [tauto|].
  destruct i; simpl.
  - intros [<-|H]; auto.
  - intros [<-|H]; auto. apply IH in H. tauto.
Qed.

Lemma length_setWorker (ws : list Worker) (i : nat) (w : Worker) :
  List.length (setWorker ws i w) = List.length ws.
Proof.
  revert i. induction ws as [|x ws IH]; intros i; simpl; [reflexivity|].
  destruct i; simpl; auto.
Qed.

(** One pass of a worker from the head of its loop. *)
Lemma loop_step (off : Z) (evs0 : list Event) :
  0 <= off ->
  contiguous 0 (ranges evs0) (Z.min off fileSize) ->
  forall w off' evs, loop off = (w, off', evs) ->
    off <= off' /\
    contiguous 0 (ranges (evs0 ++ evs)) (Z.min off' fileSize) /\
    forallb isRetried evs = true /\
    (w = Resolved -> fileSize <= off') /\
    (w = Resolved \/
     off < fileSize /\ off' = off + maxChunkSize /\
     w = InFlight (outcome (chunkUpload env resourceUrl off
                              (off + Z.min (fileSize - off) maxChunkSize - 1))) /\
     In (off, off + Z.min (fileSize - off) maxChunkSize - 1) (ranges evs)).
Proof.
  intros H0 Hc w off' evs.
  destruct (Z.lt_ge_cases off fileSize) as [Hlt|Hge].
  - rewrite workerLoop_claim by assumption. intros E. inversion E. subst. clear E.
    rewrite uploadChunk_events, ranges_app by lia. simpl.
    split; [lia|]. split; [|split; [reflexivity|split; [discriminate|]]].
    + replace (Z.min (off + maxChunkSize) fileSize)
        with (off + Z.min (fileSize - off) maxChunkSize - 1 + 1) by lia.
      apply contiguous_snoc; [|lia].
      now replace (Z.min off fileSize) with off in Hc by lia.
    + right. split; [assumption|]. split; [reflexivity|].
      split; [reflexivity | left; reflexivity].
  - rewrite workerLoop_done by assumption. intros E. inversion E. subst. clear E.
    rewrite app_nil_r. split; [lia|]. split; [assumption|]. auto.
Qed.

Lemma startWorker_inv (p : Pool) : PoolInv fileSize p -> PoolInv fileSize (start p).
Proof.
  intros (H0 & Hc & Hr & Hd). unfold start, startWorker. fold loop.
  destruct (loop (offset p)) as [[w off'] evs] eqn:L.
  destruct (loop_step (offset p) (sent p) H0 Hc w off' evs L)
    as (Hle & Hc' & Hr' & Hd' & _).
  unfold PoolInv. simpl. repeat split; try assumption; try lia.
  - now rewrite forallb_app, Hr, Hr'.
  - intros w' Hin ->. apply in_app_or in Hin. destruct Hin as [Hin|[->|[]]].
    + specialize (Hd _ Hin eq_refl). lia.
    + auto.
Qed.

Lemma completeWorker_inv (i : nat) (p : Pool) :
  PoolInv fileSize p -> PoolInv fileSize (complete i p).
Proof.
  intros (H0 & Hc & Hr & Hd). unfold complete, completeWorker. fold loop.
  destruct (nth_error (workers p) i) as [[[[]|e|]| | |]|];
    try (unfold PoolInv; auto; fail).
  - destruct (loop (offset p)) as [[w off'] evs] eqn:L.
    destruct (loop_step (offset p) (sent p) H0 Hc w off' evs L)
      as (Hle & Hc' & Hr' & Hd' & _).
    unfold PoolInv. simpl. repeat split; try assumption; try lia.
    + now rewrite forallb_app, Hr, Hr'.
    + intros w' Hin ->. apply In_setWorker in Hin. destruct Hin as [<-|Hin].
      * auto.
      * specialize (Hd _ Hin eq_refl). lia.
  - unfold PoolInv. simpl. split; [|split; [|split]]; try assumption.
    intros w' Hin ->. apply In_setWorker in Hin.
    destruct Hin as [Hin|Hin]; [discriminate | exact (Hd _ Hin eq_refl)].
  - unfold PoolInv. simpl. split; [|split; [|split]]; try assumption.
    intros w' Hin ->. apply In_setWorker in Hin.
    destruct Hin as [Hin|Hin]; [discriminate | exact (Hd _ Hin eq_refl)].
Qed.

(** *** The pool comes to rest *)

Lemma firstInFlight_some (ws : list Worker) (k i : nat) :
  firstInFlight ws k = Some i ->
  (k <= i)%nat /\ exists r, nth_error ws (i - k) = Some (InFlight r).
Proof.
  revert k. induction ws as [|w ws IH]; intros k; simpl; [discriminate|].
  destruct w as [r| | |]; simpl.
  - intros [= <-]. rewrite Nat.sub_diag. split; [lia | exists r; reflexivity].
  - intros H. apply IH in H. destruct H as (Hle & r & Hr). split; [lia|].
    exists r. replace (i - k)%nat with (S (i - S k)) by lia. exact Hr.
  - intros H. apply IH in H. destruct H as (Hle & r & Hr). split; [lia|].
    exists r. replace (i - k)%nat with (S (i - S k)) by lia. exact Hr.
  - intros H. apply IH in H. destruct H as (Hle & r & Hr). split; [lia|].
    exists r. replace (i - k)%nat with (S (i - S k)) by lia. exact Hr.
Qed.

Lemma firstInFlight_none (ws : list Worker) (k : nat) :
  firstInFlight ws k = None <-> inFlightCount ws = O.
Proof.
  unfold inFlightCount. revert k. induction ws as [|w ws IH]; intros k; simpl.
  - tauto.
  - destruct (isInFlight w); simpl; [split; discriminate | apply IH].
Qed.

Lemma pickWorker_some (preferred : option nat) (ws : list Worker) (i : nat) :
  pickWorker preferred ws = Some i ->
  exists r, nth_error ws i = Some (InFlight r).
Proof.
  assert (F : firstInFlight ws O = Some i ->
              exists r, nth_error ws i = Some (InFlight r)).
  { intros H. apply firstInFlight_some in H. now rewrite Nat.sub_0_r in H. }
  unfold pickWorker. destruct preferred as [j|]; [|exact F].
  destruct (nth_error ws j) as [[r| | |]|] eqn:N; try exact F.
  intros [= <-]. eauto.
Qed.

Lemma pickWorker_none (preferred : option nat) (ws : list Worker) :
  pickWorker preferred ws = None -> inFlightCount ws = O.
Proof.
  unfold pickWorker. destruct preferred as [j|];
    [destruct (nth_error ws j) as [[r| | |]|]|];
    try discriminate; apply firstInFlight_none.
Qed.

Lemma inFlightCount_setWorker (ws : list Worker) (i : nat) (r : Res unit)
    (w : Worker) :
  nth_error ws i = Some (InFlight r) ->
  (inFlightCount (setWorker ws i w) + 1 =
   inFlightCount ws + if isInFlight w then 1 else 0)%nat.
Proof.
  unfold inFlightCount. revert i. induction ws as [|x ws IH]; intros i.
  - destruct i; discriminate.
  - destruct i; simpl.
    + intros [= ->]. simpl. destruct (isInFlight w); simpl; lia.
    + intros H. specialize (IH i H). destruct (isInFlight x); simpl; lia.
Qed.

(** Each completion leaves less to do. *)
Lemma completeWorker_measure (i : nat) (p : Pool) (r : Res unit) :
  nth_error (workers p) i = Some (InFlight r) ->
  (poolMeasure fileSize (complete i p) < poolMeasure fileSize p)%nat.
Proof.
  intros N. unfold complete, completeWorker, poolMeasure. fold loop. rewrite N.
  destruct r as [[]|e|].
  - destruct (Z.lt_ge_cases (offset p) fileSize) as [Hlt|Hge].
    + rewrite workerLoop_claim by assumption. simpl.
      pose proof (inFlightCount_setWorker (workers p) i (Ok tt)
                    (InFlight (outcome (chunkUpload env resourceUrl (offset p)
                       (offset p + Z.min (fileSize - offset p) maxChunkSize - 1))))
                    N) as C.
      simpl in C. lia.
    + rewrite workerLoop_done by assumption. simpl.
      pose proof (inFlightCount_setWorker (workers p) i (Ok tt) Resolved N) as C.
      simpl in C. lia.
  - simpl.
    pose proof (inFlightCount_setWorker (workers p) i (Throw e) (Rejected e) N) as C.
    simpl in C. lia.
  - simpl.
    pose proof (inFlightCount_setWorker (workers p) i OutOfFuel Hung N) as C.
    simpl in C. lia.
Qed.

Lemma runPool_rest (fuel : nat) (schedule : list nat) (p : Pool) :
  (poolMeasure fileSize p <= fuel)%nat ->
  inFlightCount
    (workers (runPool env fuel schedule fileSize maxChunkSize resourceUrl p)) = O.
Proof.
  revert schedule p. induction fuel as [|fuel IH]; intros schedule p Hm; simpl.
  - unfold poolMeasure in Hm. lia.
  - destruct (pickWorker (hd_error schedule) (workers p)) as [i|] eqn:P.
    + apply IH. destruct (pickWorker_some _ _ _ P) as (r & N).
      pose proof (completeWorker_measure i p r N). unfold complete in *. lia.
    + eapply pickWorker_none; eassumption.
Qed.

(** What every completion keeps holds when the pool is at rest; what every
    start keeps holds once the workers have been started. *)
Lemma runPool_keeps (Q : Pool -> Prop) (fuel : nat) (schedule : list nat)
    (p : Pool) :
  (forall i p', Q p' -> Q (complete i p')) ->
  Q p -> Q (runPool env fuel schedule fileSize maxChunkSize resourceUrl p).
Proof.
  intros HQ. revert schedule p.
  induction fuel as [|fuel IH]; intros schedule p Hp; simpl; [exact Hp|].
  destruct (pickWorker (hd_error schedule) (workers p)); [|exact Hp].
  apply IH. now apply HQ.
Qed.

Lemma fold_start_keeps (Q : Pool -> Prop) (parallelUploads : list nat) (p : Pool) :
  (forall p', Q p' -> Q (start p')) ->
  Q p -> Q (fold_left (fun p' _ => start p') parallelUploads p).
Proof.
  intros HQ. revert p.
  induction parallelUploads as [|x l IH]; intros p Hp; simpl; auto.
Qed.

Lemma startWorker_measure (p : Pool) :
  (poolMeasure fileSize (start p) <= poolMeasure fileSize p)%nat /\
  List.length (workers (start p)) = S (List.length (workers p)).
Proof.
  unfold start, startWorker, poolMeasure, inFlightCount. fold loop.
  destruct (Z.lt_ge_cases (offset p) fileSize) as [Hlt|Hge].
  - rewrite workerLoop_claim by assumption. simpl.
    rewrite filter_app, !length_app. simpl. lia.
  - rewrite workerLoop_done by assumption. simpl.
    rewrite filter_app, !length_app. simpl. lia.
Qed.

Lemma completeWorker_length (i : nat) (p : Pool) :
  List.length (workers (complete i p)) = List.length (workers p).
Proof.
  unfold complete, completeWorker. fold loop.
  destruct (nth_error (workers p) i) as [[[[]|e|]| | |]|]; try reflexivity;
    try (destruct (loop (offset p)) as [[w off'] evs]); simpl;
    apply length_setWorker.
Qed.

(** While every chunk that was sent is accepted no worker fails. *)
Let accepted (p : Pool) : Prop := sentAccepted env resourceUrl (sent p).

Lemma loop_ok (off : Z) (evs0 : list Event) :
  0 <= off ->
  contiguous 0 (ranges evs0) (Z.min off fileSize) ->
  sentAccepted env resourceUrl (evs0 ++ snd (loop off)) ->
  sentAccepted env resourceUrl evs0 /\
  (fst (fst (loop off)) = Resolved \/ fst (fst (loop off)) = InFlight (Ok tt)).
Proof.
  intros H0 Hc Hacc.
  destruct (loop off) as [[w off'] evs] eqn:L. simpl in *.
  split.
  - intros s e Hin. apply Hacc. rewrite ranges_app. apply in_or_app. now left.
  - destruct (loop_step off evs0 H0 Hc w off' evs L)
      as (_ & _ & _ & _ & [->|(_ & _ & -> & Hin)]); [now left|].
    right. f_equal. apply Hacc. rewrite ranges_app. apply in_or_app. now right.
Qed.

Lemma startWorker_ok (p : Pool) :
  PoolInv fileSize p -> (accepted p -> PoolOk p) ->
  accepted (start p) -> PoolOk (start p).
Proof.
  intros (H0 & Hc & _) Hp. unfold accepted, start, startWorker. fold loop.
  pose proof (loop_ok (offset p) (sent p) H0 Hc) as Hl.
  destruct (loop (offset p)) as [[w off'] evs]. simpl in *. intros Hacc.
  destruct (Hl Hacc) as [Hacc0 Hw]. destruct (Hp Hacc0) as [Hr Hws].
  split; [exact Hr|]. simpl. intros w' Hin.
  apply in_app_or in Hin. destruct Hin as [Hin|[<-|[]]]; auto.
Qed.

Lemma completeWorker_ok (i : nat) (p : Pool) :
  PoolInv fileSize p -> (accepted p -> PoolOk p) ->
  accepted (complete i p) -> PoolOk (complete i p).
Proof.
  intros (H0 & Hc & _) Hp. unfold accepted, complete, completeWorker. fold loop.
  destruct (nth_error (workers p) i) as [w|] eqn:N; [|exact Hp].
  apply nth_error_In in N.
  destruct w as [[[]|e|]| | |]; try exact Hp.
  - pose proof (loop_ok (offset p) (sent p) H0 Hc) as Hl.
    destruct (loop (offset p)) as [[w' off'] evs]. simpl in *. intros Hacc.
    destruct (Hl Hacc) as [Hacc0 Hw]. destruct (Hp Hacc0) as [Hr Hws].
    split; [exact Hr|]. simpl. intros w'' Hin.
    apply In_setWorker in Hin. destruct Hin as [->|Hin]; auto.
  - simpl. intros Hacc. destruct (Hp Hacc) as [_ Hws].
    destruct (Hws _ N); discriminate.
  - simpl. intros Hacc. destruct (Hp Hacc) as [_ Hws].
    destruct (Hws _ N); discriminate.
Qed.

End Upload.

(** *** [uploadFile] at the cache service *)

Section UploadFile.

Variable env : Env.

(** The address the chunks of cache [cacheId] are sent to. *)
Let chunkUrl (cacheId : Z) : string :=
  getCacheServiceURL env ++ "_apis/artifactcache/" ++ "caches/" ++
  numToString cacheId.

Lemma uploadFile_rest (fuel : nat) (schedule : list nat) (cacheId : Z)
    (archivePath key : string) (options : option UploadOptions)
    (s3options : option S3ClientConfig) (s3BucketName : option string)
    (concurrency maxChunkSize : Z) :
  objectStore s3options s3BucketName = None ->
  getCacheServiceURL env <> "" ->
  uploadConcurrency (getUploadOptions env options) = Some concurrency ->
  uploadChunkSize (getUploadOptions env options) = Some maxChunkSize ->
  0 <= concurrency <= 4294967295 ->
  uploadFile env fuel schedule cacheId archivePath key options s3options
    s3BucketName =
  settlePool
    (runPool env fuel schedule (getArchiveFileSizeInBytes env archivePath)
       maxChunkSize (chunkUrl cacheId)
       (startPool env (getArchiveFileSizeInBytes env archivePath) maxChunkSize
          (chunkUrl cacheId) (seq 0 (Z.to_nat concurrency)))).
Proof.
  intros Hs Hu Hc Hm H0. unfold uploadFile. rewrite Hc, Hm. simpl assertDefined.
  rewrite !bind_ret, (newArrayKeys_ok concurrency H0).
  rewrite bind_ret, Hs, getCacheApiUrl_ok by assumption.
  now rewrite bind_ret.
Qed.

Lemma pool_inv (fuel : nat) (schedule : list nat) (fileSize maxChunkSize : Z)
    (resourceUrl : string) (parallelUploads : list nat) :
  maxChunkSize >= 1 -> 0 <= fileSize ->
  PoolInv fileSize
    (runPool env fuel schedule fileSize maxChunkSize resourceUrl
       (startPool env fileSize maxChunkSize resourceUrl parallelUploads)).
Proof.
  intros Hm Hf. apply runPool_keeps.
  - intros i p. now apply completeWorker_inv.
  - unfold startPool. apply fold_start_keeps.
    + intros p. now apply startWorker_inv.
    + unfold PoolInv. simpl. split; [lia|]. split; [lia|]. split; [reflexivity|].
      intros w [].
Qed.

Lemma pool_length (fuel : nat) (schedule : list nat) (fileSize maxChunkSize : Z)
    (resourceUrl : string) (parallelUploads : list nat) :
  List.length
    (workers (runPool env fuel schedule fileSize maxChunkSize resourceUrl
                (startPool env fileSize maxChunkSize resourceUrl parallelUploads)))
  = List.length parallelUploads.
Proof.
  apply (runPool_keeps env fileSize maxChunkSize resourceUrl
           (fun p : Pool =>
              List.length (workers p) = List.length parallelUploads)).
  - intros i p H. now rewrite completeWorker_length.
  - unfold startPool.
    assert (G : forall (l : list nat) (p : Pool),
      List.length (workers (fold_left
        (fun p' _ => startWorker env fileSize maxChunkSize resourceUrl p') l p))
      = (List.length (workers p) + List.length l)%nat).
    { induction l as [|x l IH]; intros p; simpl; [lia|]. rewrite IH.
      unfold startWorker.
      destruct (workerLoop env fileSize maxChunkSize resourceUrl (offset p))
        as [[w o] e]. simpl. rewrite length_app. simpl. lia. }
    rewrite G. reflexivity.
Qed.

Lemma startPool_measure (fileSize maxChunkSize : Z) (resourceUrl : string)
    (parallelUploads : list nat) :
  maxChunkSize >= 1 ->
  (poolMeasure fileSize
     (startPool env fileSize maxChunkSize resourceUrl parallelUploads)
   <= Z.to_nat fileSize)%nat.
Proof.
  intros Hm. unfold startPool.
  apply (fold_start_keeps env fileSize maxChunkSize resourceUrl
           (fun p : Pool => (poolMeasure fileSize p <= Z.to_nat fileSize)%nat)).
  - intros p Hp.
    pose proof (startWorker_measure env fileSize maxChunkSize resourceUrl Hm p).
    lia.
  - unfold poolMeasure, inFlightCount. simpl. rewrite Z.sub_0_r. lia.
Qed.

(** Once [uploadFile] has returned, the ranges it sent cover the file. *)
Lemma settled_ranges_cover (fileSize : Z) (p : Pool) :
  PoolInv fileSize p ->
  workers p <> [] ->
  outcome (settlePool p) = Ok tt ->
  contiguous 0 (ranges (sent p)) fileSize.
Proof.
  intros (H0 & Hc & Hr & Hd) Hne. unfold settlePool, outcome. simpl.
  destruct (rejection p); [discriminate|].
  destruct (forallb _ (workers p)) eqn:F; [|discriminate]. intros _.
  destruct (workers p) as [|w ws] eqn:W; [congruence|].
  rewrite forallb_forall in F. specialize (F w (or_introl eq_refl)).
  destruct w; try discriminate.
  specialize (Hd Resolved (or_introl eq_refl) eq_refl).
  now replace (Z.min (offset p) fileSize) with fileSize in Hc by lia.
Qed.

Lemma settled_ok (p : Pool) :
  PoolOk p -> inFlightCount (workers p) = O -> outcome (settlePool p) = Ok tt.
Proof.
  intros (Hr & Hw) Hn. unfold settlePool, outcome. simpl. rewrite Hr.
  replace (forallb _ (workers p)) with true; [reflexivity|].
  symmetry. apply forallb_forall. intros w Hin.
  destruct (Hw w Hin) as [->| ->]; [reflexivity|].
  exfalso. unfold inFlightCount in Hn.
  assert (In (InFlight (Ok tt)) (filter isInFlight (workers p)))
    by (apply filter_In; auto).
  destruct (filter isInFlight (workers p)); [contradiction | discriminate].
Qed.

(** While every chunk that was sent is accepted no worker has failed. *)
Lemma pool_ok (fuel : nat) (schedule : list nat) (fileSize maxChunkSize : Z)
    (resourceUrl : string) (parallelUploads : list nat) :
  maxChunkSize >= 1 -> 0 <= fileSize ->
  let p := runPool env fuel schedule fileSize maxChunkSize resourceUrl
             (startPool env fileSize maxChunkSize resourceUrl parallelUploads) in
  sentAccepted env resourceUrl (sent p) -> PoolOk p.
Proof.
  intros Hm Hf p.
  assert (Q : PoolInv fileSize p /\
              (sentAccepted env resourceUrl (sent p) -> PoolOk p)); [|apply Q].
  unfold p.
  apply (runPool_keeps env fileSize maxChunkSize resourceUrl
           (fun q : Pool =>
              PoolInv fileSize q /\
              (sentAccepted env resourceUrl (sent q) -> PoolOk q))).
  - intros i q [Hi Hk].
    split; [now apply completeWorker_inv | now apply completeWorker_ok].
  - unfold startPool.
    apply (fold_start_keeps env fileSize maxChunkSize resourceUrl
             (fun q : Pool =>
                PoolInv fileSize q /\
                (sentAccepted env resourceUrl (sent q) -> PoolOk q))).
    + intros q [Hi Hk].
      split; [now apply startWorker_inv | now apply startWorker_ok].
    + split.
      * unfold PoolInv. simpl. split; [lia|]. split; [lia|].
        split; [reflexivity|]. intros w [].
      * intros _. split; [reflexivity|]. intros w [].
Qed.

(** C6 (as amended): for a file of more than 0 bytes, chunks of at least one
    byte and between 1 and 2^32 - 1 workers, in whatever order the requests
    complete.  In every run, failed ones included, the ranges handed to
    [uploadChunk] follow one another from byte 0 without gap or overlap and
    stay within the file, so that no byte offset is in two of them.  When
    the upload returns they reach byte [fileSize - 1]: their sizes add up to
    [fileSize] and every byte offset of the file is in exactly one of them.
    The upload does return when the cache service accepts every chunk that
    is sent. *)
Theorem upload_ranges_partition_file
    (fuel : nat) (schedule : list nat) (cacheId : Z)
    (archivePath key : string) (options : option UploadOptions)
    (s3options : option S3ClientConfig) (s3BucketName : option string)
    (concurrency maxChunkSize : Z) :
  objectStore s3options s3BucketName = None ->
  getCacheServiceURL env <> "" ->
  uploadConcurrency (getUploadOptions env options) = Some concurrency ->
  uploadChunkSize (getUploadOptions env options) = Some maxChunkSize ->
  getArchiveFileSizeInBytes env archivePath > 0 ->
  maxChunkSize >= 1 ->
  1 <= concurrency <= 4294967295 ->
  let run := uploadFile env fuel schedule cacheId archivePath key options
               s3options s3BucketName in
  let fileSize := getArchiveFileSizeInBytes env archivePath in
  (exists hi, 0 <= hi <= fileSize /\ contiguous 0 (ranges (events run)) hi) /\
  (forall b, (covering b (ranges (events run)) <= 1)%nat) /\
  (outcome run = Ok tt ->
   contiguous 0 (ranges (events run)) fileSize /\
   totalBytes (ranges (events run)) = fileSize /\
   (forall b, 0 <= b < fileSize -> covering b (ranges (events run)) = 1%nat)) /\
  (sentAccepted env (chunkUrl cacheId) (events run) ->
   (Z.to_nat fileSize <= fuel)%nat ->
   outcome run = Ok tt).
Proof.
  intros Hs Hu Hc Hm Hf Hm1 Hc1 run fileSize. subst run.
  rewrite (uploadFile_rest fuel schedule cacheId archivePath key options
             s3options s3BucketName concurrency maxChunkSize)
    by (assumption || lia).
  fold fileSize.
  set (p := runPool env fuel schedule fileSize maxChunkSize (chunkUrl cacheId)
              (startPool env fileSize maxChunkSize (chunkUrl cacheId)
                 (seq 0 (Z.to_nat concurrency)))).
  assert (Hinv : PoolInv fileSize p) by (apply pool_inv; lia).
  change (events (settlePool p)) with (sent p).
  pose proof Hinv as (H0 & Hcont & _ & _).
  assert (Hcovered :
    forall hi, contiguous 0 (ranges (sent p)) hi ->
    forall b, 0 <= b < hi -> covering b (ranges (sent p)) = 1%nat).
  { intros hi Hhi b Hb. now apply (contiguous_covering_in 0 hi). }
  split; [exists (Z.min (offset p) fileSize); split; [lia | exact Hcont]|].
  split; [|split].
  - intros b.
    destruct (Z.lt_ge_cases b 0) as [Hb|Hb];
      [|destruct (Z.lt_ge_cases b (Z.min (offset p) fileSize)) as [Hb'|Hb']].
    + rewrite (contiguous_covering_out 0 _ b _ Hcont); [lia | now left].
    + rewrite (Hcovered _ Hcont b); lia.
    + rewrite (contiguous_covering_out 0 _ b _ Hcont); [lia | now right].
  - intros Hout.
    assert (Hcov : contiguous 0 (ranges (sent p)) fileSize).
    { apply settled_ranges_cover; try assumption.
      intros E. pose proof (pool_length fuel schedule fileSize maxChunkSize
                              (chunkUrl cacheId) (seq 0 (Z.to_nat concurrency))) as L.
      fold p in L. rewrite E, length_seq in L. simpl in L. lia. }
    split; [assumption|]. split.
    + rewrite (contiguous_totalBytes 0 fileSize) by assumption. lia.
    + now apply Hcovered.
  - intros Hacc Hfuel. apply settled_ok.
    + apply pool_ok; [lia | lia | exact Hacc].
    + apply runPool_rest; [assumption|].
      pose proof (startPool_measure fileSize maxChunkSize (chunkUrl cacheId)
                    (seq 0 (Z.to_nat concurrency)) Hm1). lia.
Qed.

End UploadFile.

(** *** What an upload sends *)

Section UploadEvents.

Variable env : Env.
Variable P : Event -> bool.
Variables fileSize maxChunkSize : Z.
Variable resourceUrl : string.

Hypothesis chunk_events :
  forall s e, forallb P (events (chunkUpload env resourceUrl s e)) = true.

Lemma workerLoop_events (off : Z) :
  forallb P (snd (workerLoop env fileSize maxChunkSize resourceUrl off)) = true.
Proof.
  unfold workerLoop. destruct (off <? fileSize); simpl; [apply chunk_events|reflexivity].
Qed.

Lemma pool_sent_all (fuel : nat) (schedule : list nat) (parallelUploads : list nat) :
  forallb P
    (sent (runPool env fuel schedule fileSize maxChunkSize resourceUrl
             (startPool env fileSize maxChunkSize resourceUrl parallelUploads)))
  = true.
Proof.
  apply (runPool_keeps env fileSize maxChunkSize resourceUrl
           (fun p : Pool => forallb P (sent p) = true)).
  - intros i p Hp. unfold completeWorker.
    pose proof (workerLoop_events (offset p)) as Hl.
    destruct (nth_error (workers p) i) as [[[[]|e|]| | |]|]; try assumption.
    destruct (workerLoop env fileSize maxChunkSize resourceUrl (offset p))
      as [[w o] evs]. simpl in *. now rewrite forallb_app, Hp, Hl.
  - unfold startPool.
    apply (fold_start_keeps env fileSize maxChunkSize resourceUrl
             (fun p : Pool => forallb P (sent p) = true)); [|reflexivity].
    intros p Hp. unfold startWorker.
    pose proof (workerLoop_events (offset p)) as Hl.
    destruct (workerLoop env fileSize maxChunkSize resourceUrl (offset p))
      as [[w o] evs]. simpl in *. now rewrite forallb_app, Hp, Hl.
Qed.

End UploadEvents.

Section Requests.

Variable env : Env.

(** At the cache service every chunk goes through the retry wrapper. *)
Lemma uploadFile_rest_events (fuel : nat) (schedule : list nat) (cacheId : Z)
    (archivePath key : string) (options : option UploadOptions)
    (s3options : option S3ClientConfig) (s3BucketName : option string) :
  objectStore s3options s3BucketName = None ->
  forallb isRetried
    (events (uploadFile env fuel schedule cacheId archivePath key options
               s3options s3BucketName)) = true.
Proof.
  intros Hs. unfold uploadFile. rewrite Hs.
  apply bind_events_all; [destruct (uploadConcurrency _); reflexivity|].
  intros concurrency.
  apply bind_events_all; [destruct (uploadChunkSize _); reflexivity|].
  intros maxChunkSize.
  apply bind_events_all;
    [now rewrite newArrayKeys_events|].
  intros parallelUploads.
  apply bind_events_all;
    [unfold getCacheApiUrl; destruct (getCacheServiceURL env =? "")%string;
     reflexivity|].
  intros resourceUrl. apply pool_sent_all.
  intros s e. apply uploadChunk_events_retried.
Qed.

(** An upload never sends the commit. *)
Lemma uploadFile_no_commit (fuel : nat) (schedule : list nat) (cacheId : Z)
    (archivePath key : string) (options : option UploadOptions)
    (s3options : option S3ClientConfig) (s3BucketName : option string) :
  forallb (fun e => negb (isCommit e))
    (events (uploadFile env fuel schedule cacheId archivePath key options
               s3options s3BucketName)) = true.
Proof.
  unfold uploadFile.
  apply bind_events_all; [destruct (uploadConcurrency _); reflexivity|].
  intros concurrency.
  apply bind_events_all; [destruct (uploadChunkSize _); reflexivity|].
  intros maxChunkSize.
  apply bind_events_all;
    [now rewrite newArrayKeys_events|].
  intros parallelUploads.
  destruct (objectStore s3options s3BucketName) as [[o b]|].
  - unfold uploadFileS3, request, rethrow, events.
    destruct (s3UploadDone env o b key); reflexivity.
  - apply bind_events_all;
      [unfold getCacheApiUrl; destruct (getCacheServiceURL env =? "")%string;
       reflexivity|].
    intros resourceUrl. apply pool_sent_all.
    intros s e. apply uploadChunk_events_no_commit.
Qed.

(** X19: the commit is sent only after [uploadFile] has returned, every chunk
    accepted, and only when no object-store configuration was given. *)
Lemma saveCache_commit_after_upload (fuel : nat) (schedule : list nat)
    (cacheId : Z) (archivePath key : string) (signedUploadURL : option string)
    (options : option UploadOptions)
    (s3Options : option S3ClientConfig) (s3BucketName : option string) :
  existsb isCommit
    (events (saveCache env fuel schedule cacheId archivePath key signedUploadURL
               options s3Options s3BucketName)) = true ->
  s3Options = None /\
  outcome (uploadFile env fuel schedule cacheId archivePath key options
             s3Options s3BucketName) = Ok tt.
Proof.
  unfold saveCache.
  destruct (truthyBool (useAzureSdk (getUploadOptions env options))).
  - destruct signedUploadURL as [url|]; [|discriminate].
    destruct (url =? "")%string; discriminate.
  - rewrite events_bind, existsb_app.
    pose proof (uploadFile_no_commit fuel schedule cacheId archivePath key
                  options s3Options s3BucketName) as Hn.
    assert (Hu : existsb isCommit
                   (events (uploadFile env fuel schedule cacheId archivePath key
                              options s3Options s3BucketName)) = false).
    { destruct (existsb isCommit _) eqn:E; [|reflexivity].
      apply existsb_exists in E. destruct E as (e & He & Hc).
      rewrite forallb_forall in Hn. specialize (Hn e He).
      rewrite Hc in Hn. discriminate. }
    rewrite Hu. simpl.
    destruct (outcome (uploadFile env fuel schedule cacheId archivePath key
                         options s3Options s3BucketName)) as [[]|e|];
      try discriminate.
    destruct s3Options; [discriminate|]. auto.
Qed.

Lemma listObjects_events (fuel : nat) (s3Options : S3ClientConfig)
    (s3BucketName : string) (primaryKey : option string) (st : ListState) :
  forallb isDirectListing
    (events (listObjects env fuel s3Options s3BucketName primaryKey st)) = true.
Proof.
  revert st. induction fuel as [|fuel IH]; intros st; [reflexivity|].
  rewrite listObjects_step. unfold prepend, events. simpl.
  destruct (s3Send env s3Options s3BucketName (nextParam st)) as [r|e|];
    try reflexivity.
  destruct (Contents r) as [objs|]; [|destruct (negb _); reflexivity].
  destruct (primaryMatch primaryKey objs); [reflexivity|].
  destruct (truthyBool (IsTruncated r)); [apply IH | reflexivity].
Qed.

(** The listing of the bucket is sent as it is. *)
Lemma getCacheEntryS3_events (fuel : nat) (s3Options : S3ClientConfig)
    (s3BucketName : string) (keys paths : list string) :
  forallb isDirectListing
    (events (getCacheEntryS3 env fuel s3Options s3BucketName keys paths)) = true.
Proof.
  unfold getCacheEntryS3. apply bind_events_all; [apply listObjects_events|].
  intros [entry|cs]; [reflexivity|].
  destruct (searchRestoreKeyEntry (tl keys) cs) as [f|]; [|reflexivity].
  destruct (LastModified f); reflexivity.
Qed.

(** C8 (as amended): the requests to the cache service (lookup with its
    diagnostic listing, reservation, chunk uploads, commit) are all sent from
    inside the retry wrapper; the listing of the bucket is sent as it is,
    outside of it. *)
Theorem service_requests_retried_bucket_listing_direct
    (fuel : nat) (schedule : list nat) (keys paths : list string)
    (options : option InternalCacheOptions) (key : string) (cacheId : Z)
    (archivePath : string) (uploadOptions : option UploadOptions)
    (filesize : Z)
    (s3Options : option S3ClientConfig) (s3BucketName : option string) :
  objectStore s3Options s3BucketName = None ->
  forallb isRetried
    (events (getCacheEntry env fuel keys paths options s3Options s3BucketName))
    = true /\
  forallb isRetried
    (events (reserveCache env key paths options s3Options s3BucketName)) = true /\
  forallb isRetried
    (events (uploadFile env fuel schedule cacheId archivePath key uploadOptions
               s3Options s3BucketName)) = true /\
  forallb isRetried (events (commitCache env cacheId filesize)) = true /\
  forall o b,
    forallb isDirectListing (events (getCacheEntryS3 env fuel o b keys paths))
    = true.
Proof.
  intros Hs. split; [now apply getCacheEntry_rest_events|].
  split; [now apply reserveCache_rest_events|].
  split; [now apply uploadFile_rest_events|].
  split; [apply commitCache_events|].
  intros o b. apply getCacheEntryS3_events.
Qed.

(** C4 (as amended): at the cache service the version is part of the address
    of the lookup, so that lookups with different versions are different
    requests; in the bucket the version plays no part, the lookup gives the
    same result whatever the paths and options. *)
Theorem version_in_service_query_only
    (fuel : nat) (keys paths1 paths2 : list string)
    (options1 options2 : option InternalCacheOptions)
    (s3Options : option S3ClientConfig) (s3BucketName : option string) :
  (objectStore s3Options s3BucketName <> None ->
   getCacheEntry env fuel keys paths1 options1 s3Options s3BucketName =
   getCacheEntry env fuel keys paths2 options2 s3Options s3BucketName) /\
  (objectStore s3Options s3BucketName = None ->
   getCacheServiceURL env <> "" ->
   hd_error (events (getCacheEntry env fuel keys paths1 options1 s3Options
                       s3BucketName)) =
   Some (Retried "getCacheEntry"
           (GetJson (lookupUrl env keys (versionOf env paths1 options1)))) /\
   (versionOf env paths1 options1 <> versionOf env paths2 options2 ->
    lookupUrl env keys (versionOf env paths1 options1) <>
    lookupUrl env keys (versionOf env paths2 options2))).
Proof.
  split.
  - intros Hs. unfold getCacheEntry.
    destruct (objectStore s3Options s3BucketName) as [[o b]|]; [|congruence].
    reflexivity.
  - intros Hs Hu. split.
    + rewrite getCacheEntry_rest by assumption. reflexivity.
    + intros Hv E. apply Hv. unfold lookupUrl in E.
      repeat apply append_inj_r in E. exact E.
Qed.

End Requests.

(** ** The claims at concrete inputs *)

Lemma upload_ranges_partition_file_witness :
  let env := uploadEnv 204 in
  let run := uploadFile env 10 [1; 0; 1]%nat 7 "cache.tzst" "k" (chunksOfFour 2)
               None None in
  objectStore None None = None /\
  getCacheServiceURL env <> "" /\
  uploadConcurrency (getUploadOptions env (chunksOfFour 2)) = Some 2 /\
  uploadChunkSize (getUploadOptions env (chunksOfFour 2)) = Some 4 /\
  getArchiveFileSizeInBytes env "cache.tzst" > 0 /\
  4 >= 1 /\ 1 <= 2 <= 4294967295 /\
  sentAccepted env "https://cache.example/_apis/artifactcache/caches/7"
    (events run) /\
  (Z.to_nat (getArchiveFileSizeInBytes env "cache.tzst") <= 10)%nat /\
  outcome run = Ok tt /\
  contiguous 0 (ranges (events run)) 10 /\
  totalBytes (ranges (events run)) = 10 /\
  (forall b, 0 <= b < 10 -> covering b (ranges (events run)) = 1%nat) /\
  (forall b, (covering b (ranges (events run)) <= 1)%nat).
Proof.
  intros env run.
  assert (Hacc : sentAccepted env
                   "https://cache.example/_apis/artifactcache/caches/7"
                   (events run)).
  { intros s e Hin. vm_compute in Hin.
    destruct Hin as [E|[E|[E|[]]]]; injection E as <- <-; reflexivity. }
  split; [reflexivity|]. split; [discriminate|]. split; [reflexivity|].
  split; [reflexivity|]. split; [reflexivity|]. split; [lia|]. split; [lia|].
  split; [exact Hacc|]. split; [simpl; lia|].
  destruct (upload_ranges_partition_file env 10 [1; 0; 1]%nat 7 "cache.tzst" "k"
              (chunksOfFour 2) None None 2 4)
    as (_ & Honce & Hreturned & Hreturns).
  - reflexivity.
  - discriminate.
  - reflexivity.
  - reflexivity.
  - reflexivity.
  - lia.
  - lia.
  - assert (Hout : outcome run = Ok tt).
    { apply Hreturns; [exact Hacc | simpl; lia]. }
    destruct (Hreturned Hout) as (Hcont & Htotal & Hcov).
    split; [exact Hout|]. split; [exact Hcont|]. split; [exact Htotal|].
    split; [exact Hcov | exact Honce].
Defined.

(** C6 (as stated) fails: the cache service refuses the first chunk, the only
    worker stops, and bytes 4 to 9 are never handed to [uploadChunk]. *)
Lemma failed_chunk_leaves_file_uncovered :
  ~ rangesPartitionFile (uploadEnv 400) 20 [] 7 "cache.tzst" "k" (chunksOfFour 1).
Proof.
  intros [_ H]. vm_compute in H. discriminate.
Qed.

(** C3: with an object-store configuration and no bucket name the archive is
    uploaded in chunks to the cache service, every chunk is accepted, and no
    commit is sent. *)
Theorem saveCache_without_bucket_skips_commit :
  let run := saveCache (uploadEnv 204) 20 [] 7 "cache.tzst" "k" None
               (chunksOfFour 2) (Some exampleS3Options) None in
  objectStore (Some exampleS3Options) None = None /\
  outcome run = Ok tt /\
  ranges (events run) = [(0, 3); (4, 7); (8, 9)] /\
  forallb isRetried (events run) = true /\
  existsb isCommit (events run) = false.
Proof. vm_compute. repeat split. Qed.

(** The same upload without the object-store configuration ends with the
    commit of the ten bytes. *)
Example saveCache_rest_commits :
  let run := saveCache (uploadEnv 204) 20 [] 7 "cache.tzst" "k" None
               (chunksOfFour 2) None None in
  outcome run = Ok tt /\
  ranges (events run) = [(0, 3); (4, 7); (8, 9)] /\
  last (events run) (Direct (GetJson "")) =
    Retried "commitCache"
      (PostJson "https://cache.example/_apis/artifactcache/caches/7"
         (CommitCacheRequest 10)).
Proof. vm_compute. repeat split. Qed.

(** ... and a chunk that fails for good (scenario E) keeps the commit from
    being sent. *)
Example saveCache_failed_chunk_no_commit :
  let env := exampleEnv false (fun _ => Throw "no bucket") noContent noContent
               (fun s _ => if s =? 8
                           then Throw "Cache service responded with 503"
                           else Ok (Some 204)) 10 in
  let run := saveCache env 20 [] 7 "cache.tzst" "k" None (chunksOfFour 2)
               None None in
  outcome run =
    Throw "uploadChunk (start: 8, end: 9) failed: Cache service responded with 503" /\
  ranges (events run) = [(0, 3); (4, 7); (8, 9)] /\
  existsb isCommit (events run) = false.
Proof. vm_compute. repeat split. Qed.

Lemma rest_lookup_by_status_witness :
  let env := exampleEnv false (fun _ => Throw "no bucket") noContent noContent
               (fun _ _ => Ok (Some 204)) 10 in
  objectStore None None = None /\
  getCacheServiceURL env <> "" /\
  getCacheEntryResponse env (lookupUrl env ["k"] (versionOf env ["p"] None))
    = noContent /\
  outcome (getCacheEntry env 0 ["k"] ["p"] None None None) = Ok None.
Proof.
  intros env. split; [reflexivity|]. split; [discriminate|]. split; [reflexivity|].
  refine (proj1 (rest_lookup_by_status env 0 ["k"] ["p"] None None None
                   {| statusCode := 204; result := None; headers := [] |}
                   _ _ _) _ _).
  - reflexivity.
  - discriminate.
  - reflexivity.
  - reflexivity.
  - left. reflexivity.
Defined.

(** C7 (as stated) fails: in debug mode the 204 answer is followed by the
    diagnostic listing of the caches, and when that request fails the lookup
    throws. *)
Lemma no_content_lookup_throws_in_debug : ~ noContentMeansNone debugEnv.
Proof.
  intros H.
  specialize (H O ["k"] ["p"] None
                {| statusCode := 204; result := None; headers := [] |}
                eq_refl eq_refl).
  vm_compute in H. discriminate.
Qed.

Lemma reserveCache_object_store_noop_witness :
  "bucket" <> "" /\
  reserveCache threePages "k" ["p"] None (Some exampleS3Options) (Some "bucket") =
  ([], Ok {| statusCode := 200; result := None; headers := [] |}).
Proof.
  split; [discriminate|].
  apply (reserveCache_object_store_noop threePages "k" ["p"] None
           exampleS3Options "bucket").
  discriminate.
Defined.

Lemma service_requests_retried_bucket_listing_direct_witness :
  objectStore None (Some "bucket") = None /\
  forallb isRetried
    (events (uploadFile (uploadEnv 204) 20 [] 7 "cache.tzst" "k" (chunksOfFour 2)
               None (Some "bucket"))) = true.
Proof.
  split; [reflexivity|].
  apply (service_requests_retried_bucket_listing_direct (uploadEnv 204) 20 []
           ["k"] ["p"] None "k" 7 "cache.tzst" (chunksOfFour 2) 10
           None (Some "bucket")).
  reflexivity.
Defined.

(** C8 (as stated) fails: the requests that list the bucket are sent outside
    of the retry wrapper. *)
Lemma bucket_listing_not_retried : ~ everyLookupRequestRetried threePages.
Proof.
  intros H.
  specialize (H 5%nat ["k-v2"] [] None (Some exampleS3Options) (Some "bucket")).
  vm_compute in H. discriminate.
Qed.

Lemma version_in_service_query_only_witness :
  (objectStore (Some exampleS3Options) (Some "bucket") <> None /\
   getCacheEntry threePages 5 ["k-v2"] ["a"] None (Some exampleS3Options)
     (Some "bucket") =
   getCacheEntry threePages 5 ["k-v2"] ["b"] None (Some exampleS3Options)
     (Some "bucket")) /\
  (objectStore None None = None /\
   getCacheServiceURL threePages <> "" /\
   versionOf threePages ["a"] None <> versionOf threePages ["b"] None /\
   lookupUrl threePages ["k-v2"] (versionOf threePages ["a"] None) <>
   lookupUrl threePages ["k-v2"] (versionOf threePages ["b"] None)).
Proof.
  split.
  - split; [discriminate|].
    apply (proj1 (version_in_service_query_only threePages 5 ["k-v2"] ["a"] ["b"]
                    None None (Some exampleS3Options) (Some "bucket"))).
    discriminate.
  - split; [reflexivity|]. split; [discriminate|]. split; [discriminate|].
    apply (proj2 (version_in_service_query_only threePages 5 ["k-v2"] ["a"] ["b"]
                    None None None None)).
    + reflexivity.
    + discriminate.
    + discriminate.
Defined.

(** C4 (as stated) fails: two lookups in the bucket with the same keys and
    different versions return the same entry. *)
Lemma bucket_lookup_ignores_version : ~ versionIsIdentity threePages.
Proof.
  intros H.
  apply (H 5%nat ["k-v2"] ["a"] ["b"] None None (Some exampleS3Options)
           (Some "bucket") (s3Entry threePages (Some "k-v2") 1)).
  - discriminate.
  - reflexivity.
  - reflexivity.
Qed.

(** ** The scenarios of the specification *)

(** Scenario A: the store holds only [k-v1]; the lookup for [k-v2], [k-v1]
    returns it through the fallback key. *)
Example scenario_A :
  let page := {| Contents := Some [object "k-v1" 1];
                 IsTruncated := Some false;
                 NextContinuationToken := None |} in
  outcome (getCacheEntryS3 (s3Env page []) 1 exampleS3Options "bucket"
             ["k-v2"; "k-v1"] [])
  = Ok (Some (s3Entry (s3Env page []) (Some "k-v1") 1)).
Proof. reflexivity. Qed.

(** Scenario B: the store holds [k-v2]; the newer [k-v1] is ignored. *)
Example scenario_B :
  let page := {| Contents := Some [object "k-v1" 8; object "k-v2" 1];
                 IsTruncated := Some false;
                 NextContinuationToken := None |} in
  outcome (getCacheEntryS3 (s3Env page []) 1 exampleS3Options "bucket"
             ["k-v2"; "k-v1"] [])
  = Ok (Some (s3Entry (s3Env page []) (Some "k-v2") 1)).
Proof. reflexivity. Qed.

(** Scenario D: 250 MB in chunks of 64 MB by four workers are four chunks of
    64, 64, 64 and 58 MB, followed by the commit of 250 MB. *)
Example scenario_D :
  let MB := 1024 * 1024 in
  let env := exampleEnv false (fun _ => Throw "no bucket") noContent noContent
               (fun _ _ => Ok (Some 204)) (250 * MB) in
  let run := saveCache env 4 [3; 1; 0; 2]%nat 7 "cache.tzst" "k" None
               (Some {| useAzureSdk := None;
                        uploadConcurrency := Some 4;
                        uploadChunkSize := Some (64 * MB) |})
               None None in
  outcome run = Ok tt /\
  ranges (events run) =
    [(0, 64 * MB - 1); (64 * MB, 128 * MB - 1); (128 * MB, 192 * MB - 1);
     (192 * MB, 250 * MB - 1)] /\
  last (events run) (Direct (GetJson "")) =
    Retried "commitCache"
      (PostJson "https://cache.example/_apis/artifactcache/caches/7"
         (CommitCacheRequest (250 * MB))).
Proof. vm_compute. repeat split. Qed.

(** * Further properties *)

(** ** The listing of the bucket: errors and edges *)

Section ListingEdges.

Variable env : Env.
Variable s3Options : S3ClientConfig.
Variable s3BucketName : string.

Let send := s3Send env s3Options s3BucketName.

(** X1: an error of the bucket on any page is thrown to the caller as
    [Error from S3: ...]; the failed request is the last one sent. *)
Theorem listing_error_is_thrown (keys paths : list string)
    (pre : list ListObjectsV2CommandOutput) (e : string) (fuel : nat) :
  paged send None pre ->
  forallb (continues (hd_error keys)) pre = true ->
  send (paramAfter None pre) = Throw e ->
  (List.length pre < fuel)%nat ->
  getCacheEntryS3 env fuel s3Options s3BucketName keys paths =
  ((listingEvents s3BucketName None pre ++
    [Direct (ListObjectsV2Command s3BucketName (paramAfter None pre))])%list,
   Throw ("Error from S3: " ++ e)).
Proof.
  intros Hp Hc He Hf. unfold getCacheEntryS3.
  replace fuel with (List.length pre + S (fuel - S (List.length pre)))%nat by lia.
  rewrite (listObjects_continue env s3Options s3BucketName (hd_error keys) pre
             initialListState) by assumption.
  rewrite listObjects_step, nextParam_advance.
  change (nextParam initialListState) with (@None string).
  fold send. rewrite He. reflexivity.
Qed.

(** A page that lets the loop go on and leaves the token as it is keeps the
    loop going for ever. *)
Lemma listObjects_stuck (primaryKey : option string)
    (page : ListObjectsV2CommandOutput) (fuel : nat) (st : ListState) :
  send (nextParam st) = Ok page ->
  continues primaryKey page = true ->
  followingParam (nextParam st) page = nextParam st ->
  listObjects env fuel s3Options s3BucketName primaryKey st =
  (repeat (Direct (ListObjectsV2Command s3BucketName (nextParam st))) fuel,
   OutOfFuel).
Proof.
  intros Hs Hc Hf. revert st Hs Hf.
  induction fuel as [|fuel IH]; intros st Hs Hf; [reflexivity|].
  rewrite listObjects_step. fold send. rewrite Hs.
  unfold continues, hasMore in Hc.
  destruct (Contents page) as [objs|] eqn:C; [|discriminate].
  simpl in Hc. apply andb_prop in Hc. destruct Hc as [Ht Hn].
  destruct (primaryMatch primaryKey objs); [discriminate|].
  rewrite Ht, IH.
  - rewrite nextParam_advance1, Hf. reflexivity.
  - rewrite nextParam_advance1, Hf. exact Hs.
  - rewrite nextParam_advance1, Hf. exact Hf.
Qed.

(** X2: when a truncated page with [Contents] and without primary match
    carries no new continuation token, the same request is sent again and
    again: whatever the number of turns allowed, the lookup has not returned,
    and from that page on every request is the same. *)
Theorem truncated_page_without_new_token_is_listed_for_ever
    (keys paths : list string) (pre : list ListObjectsV2CommandOutput)
    (page : ListObjectsV2CommandOutput) (fuel : nat) :
  paged send None (pre ++ [page]) ->
  forallb (continues (hd_error keys)) (pre ++ [page]) = true ->
  followingParam (paramAfter None pre) page = paramAfter None pre ->
  getCacheEntryS3 env (List.length pre + fuel) s3Options s3BucketName keys paths =
  ((listingEvents s3BucketName None pre ++
    repeat (Direct (ListObjectsV2Command s3BucketName (paramAfter None pre))) fuel)%list,
   OutOfFuel).
Proof.
  intros Hp Hc Hf. apply paged_app in Hp. destruct Hp as [Hpre [Hpage _]].
  rewrite forallb_app in Hc. apply andb_prop in Hc. destruct Hc as [Hc1 Hc2].
  simpl in Hc2. rewrite andb_true_r in Hc2.
  unfold getCacheEntryS3.
  rewrite (listObjects_continue env s3Options s3BucketName (hd_error keys) pre
             initialListState) by assumption.
  rewrite (listObjects_stuck (hd_error keys) page).
  - rewrite nextParam_advance. reflexivity.
  - rewrite nextParam_advance. exact Hpage.
  - exact Hc2.
  - rewrite nextParam_advance. exact Hf.
Qed.

(** X4: once objects have been listed, a page without [Contents] ends the
    listing, also when it is marked as truncated: no further page is
    requested and the fallback keys are searched in what was listed before. *)
Theorem page_without_contents_ends_listing (keys paths : list string)
    (pre : list ListObjectsV2CommandOutput) (last : ListObjectsV2CommandOutput)
    (fuel : nat) :
  paged send None (pre ++ [last]) ->
  forallb (continues (hd_error keys)) pre = true ->
  Contents last = None ->
  listed pre <> [] ->
  (List.length pre < fuel)%nat ->
  getCacheEntryS3 env fuel s3Options s3BucketName keys paths =
  (listingEvents s3BucketName None (pre ++ [last]),
   Ok (fallbackEntry env keys (listed pre))).
Proof.
  intros Hp Hc HC Hl Hf.
  assert (E : listed (pre ++ [last]) = listed pre).
  { rewrite listed_app. unfold listed at 2. simpl. unfold objectsOf.
    now rewrite HC, !app_nil_r. }
  rewrite <- E.
  apply (bind_listed env s3Options s3BucketName fuel keys paths _
           (Listed (listed (pre ++ [last])))).
  apply listObjects_listed; try assumption.
  unfold finishes. rewrite HC.
  destruct (listed pre); [congruence | reflexivity].
Qed.

Lemma _searchRestoreKeyEntry_prefix (k : string) (entries : list _content)
    (found : _content) :
  _searchRestoreKeyEntry k entries = Some found ->
  In found entries /\ keyStartsWith k found = true.
Proof.
  rewrite _searchRestoreKeyEntry_find.
  destruct (find (exact k) entries) as [e|] eqn:F.
  - intros [= <-]. apply find_some in F. destruct F as [Hin Hx].
    apply strictEq_true in Hx. auto using exact_is_prefix.
  - intros H. apply hd_sort_In, filter_In in H. exact H.
Qed.

Lemma searchRestoreKeyEntry_prefix (keys : list string)
    (entries : list _content) (found : _content) :
  searchRestoreKeyEntry keys entries = Some found ->
  In found entries /\ exists k, In k keys /\ keyStartsWith k found = true.
Proof.
  induction keys as [|k keys IH]; simpl; [discriminate|].
  destruct (_searchRestoreKeyEntry k entries) as [f|] eqn:E.
  - intros [= <-]. apply _searchRestoreKeyEntry_prefix in E.
    destruct E as [Hin Hp]. eauto.
  - intros H. destruct (IH H) as (Hin & k' & Hk & Hp). eauto.
Qed.

(** X3: the key of an entry that the lookup returns is the primary key, or
    else it starts with one of the fallback keys; no other object is ever
    returned. *)
Theorem returned_key_is_primary_or_extends_fallback
    (keys paths : list string) (fuel : nat) (entry : ArtifactCacheEntry) :
  outcome (getCacheEntryS3 env fuel s3Options s3BucketName keys paths)
    = Ok (Some entry) ->
  cacheKey entry = hd_error keys \/
  exists k key, In k (tl keys) /\ cacheKey entry = Some key /\
                String.prefix k key = true.
Proof.
  unfold getCacheEntryS3, bind, outcome.
  destruct (listObjects env fuel s3Options s3BucketName (hd_error keys)
              initialListState) as [l [out|e|]] eqn:L; try discriminate.
  pose proof (listObjects_served env s3Options s3BucketName (hd_error keys) fuel
                initialListState out) as S.
  unfold outcome in S. rewrite L in S.
  specialize (S (fun c H => match H with end) eq_refl).
  destruct out as [e|cs]; simpl.
  - intros [= <-]. destruct S as (obj & t & _ & _ & _ & ->). now left.
  - destruct (searchRestoreKeyEntry (tl keys) cs) as [f|] eqn:F; [|discriminate].
    destruct (LastModified f) as [t|]; [|discriminate].
    simpl. intros [= <-]. right.
    apply searchRestoreKeyEntry_prefix in F. destruct F as (_ & k & Hk & Hp).
    unfold keyStartsWith in Hp. destruct (Key f) as [key|] eqn:K; [|discriminate].
    exists k, key. simpl. auto.
Qed.

End ListingEdges.

(** ** The search over the fallback keys: misses, ties, the empty key *)

(** X5: the search over the fallback keys finds nothing exactly when no
    listed entry starts with any of the keys. *)
Theorem fallback_miss_iff_no_prefix_match (keys : list string)
    (entries : list _content) :
  searchRestoreKeyEntry keys entries = None <->
  forallb (fun k => negb (matchesKey k entries)) keys = true.
Proof.
  split; [|apply searchRestoreKeyEntry_none].
  induction keys as [|k keys IH]; simpl; [reflexivity|].
  destruct (matchesKey k entries) eqn:M.
  - destruct (_searchRestoreKeyEntry_some k entries M) as (f & -> & _).
    discriminate.
  - rewrite (_searchRestoreKeyEntry_none k entries M). exact IH.
Qed.

(** Of dated entries the sort puts first the earliest listed of the latest. *)
Lemma hd_sort_first_of_latest (l : list _content) (h : _content) :
  (forall e, In e l -> LastModified e <> None) ->
  hd_error (sort compareLastModified l) = Some h ->
  exists l1 l2,
    l = (l1 ++ h :: l2)%list /\
    (forall e, In e l1 -> lastModifiedTime e < lastModifiedTime h) /\
    (forall e, In e l2 -> lastModifiedTime e <= lastModifiedTime h).
Proof.
  revert h. induction l as [|x l IH]; intros h Hall; [discriminate|].
  assert (Hl : forall e, In e l -> LastModified e <> None)
    by (intros e He; apply Hall; now right).
  assert (Hcmp : forall y, In y l ->
            (compareLastModified x y > 0 <->
             lastModifiedTime x < lastModifiedTime y)).
  { intros y Hy. rewrite compareLastModified_pos. unfold lastModifiedTime.
    pose proof (Hall x (or_introl eq_refl)) as Hx. pose proof (Hl y Hy) as Hy'.
    destruct (LastModified x) as [tx|]; [|congruence].
    destruct (LastModified y) as [ty|]; [|congruence].
    split; [intros (a & b & [= <-] & [= <-] & H); exact H | eauto]. }
  rewrite hd_sort_cons.
  destruct (hd_error (sort compareLastModified l)) as [y|] eqn:Hy.
  - destruct (IH y Hl eq_refl) as (l1 & l2 & -> & H1 & H2).
    assert (Hin : In y (l1 ++ y :: l2)) by (apply in_or_app; right; now left).
    destruct (Z.gtb_spec (compareLastModified x y) 0) as [Hc|Hc]; intros [= <-].
    + apply Z.lt_gt in Hc. apply Hcmp in Hc; [|exact Hin].
      exists (x :: l1), l2. split; [reflexivity|]. split; [|exact H2].
      intros e [<-|He]; auto.
    + exists [], (l1 ++ y :: l2)%list. split; [reflexivity|].
      split; [intros e []|].
      assert (Hxy : lastModifiedTime y <= lastModifiedTime x).
      { destruct (Z.lt_ge_cases (lastModifiedTime x) (lastModifiedTime y))
          as [Hlt|Hge]; [|lia].
        apply Hcmp in Hlt; [lia | exact Hin]. }
      intros e He. apply in_app_or in He. destruct He as [He|[<-|He]].
      * specialize (H1 e He). lia.
      * exact Hxy.
      * specialize (H2 e He). lia.
  - intros [= <-]. destruct l as [|z l'].
    + exists [], []. split; [reflexivity|]. split; intros e [].
    + destruct (hd_sort_some (z :: l')) as (h' & Hh'); congruence.
Qed.

(** X6: when no entry has the fallback key itself and every entry that
    starts with it is dated, the entry selected is, among the entries that
    start with the key, the earliest listed of those with the latest time:
    those listed before it are strictly older, those after it not newer. *)
Theorem latest_prefix_match_ties_go_to_first_listed (k : string)
    (entries : list _content) (found : _content) :
  existsb (exact k) entries = false ->
  prefixMatchesDated k entries = true ->
  _searchRestoreKeyEntry k entries = Some found ->
  exists l1 l2,
    filter (keyStartsWith k) entries = (l1 ++ found :: l2)%list /\
    (forall e, In e l1 -> lastModifiedTime e < lastModifiedTime found) /\
    (forall e, In e l2 -> lastModifiedTime e <= lastModifiedTime found).
Proof.
  intros Hex Hd. rewrite _searchRestoreKeyEntry_find.
  destruct (find (exact k) entries) as [e|] eqn:F.
  - apply find_some in F. destruct F as [He Hx].
    assert (existsb (exact k) entries = true) by (apply existsb_exists; eauto).
    congruence.
  - apply hd_sort_first_of_latest.
    intros e He. apply filter_In in He. destruct He as [He Hp].
    unfold prefixMatchesDated in Hd. rewrite forallb_forall in Hd.
    specialize (Hd e He). rewrite Hp in Hd.
    destruct (LastModified e); [discriminate | discriminate].
Qed.

Lemma prefix_empty (s : string) : String.prefix "" s = true.
Proof. destruct s; reflexivity. Qed.

(** X7: the empty fallback key matches every object that has a key: as soon
    as one is listed the search returns what the search for the empty key
    alone returns, a listed entry with a key, and the keys after the empty
    one are not looked at: whatever they are, the result is the same. *)
Theorem empty_fallback_key_matches_any_key (entries : list _content) :
  existsb (fun e => isSome (Key e)) entries = true ->
  exists found,
    _searchRestoreKeyEntry "" entries = Some found /\
    (forall after : list string,
       searchRestoreKeyEntry ("" :: after) entries = Some found) /\
    In found entries /\ Key found <> None.
Proof.
  intros H. apply existsb_exists in H. destruct H as (e & He & Hk).
  assert (M : matchesKey "" entries = true).
  { apply existsb_exists. exists e. split; [assumption|].
    unfold keyStartsWith. destruct (Key e); [apply prefix_empty | discriminate]. }
  destruct (_searchRestoreKeyEntry_some "" entries M) as (f & Hf & Hin & Hp).
  exists f. split; [exact Hf|]. split; [|split; [exact Hin|]].
  - intros after. simpl. now rewrite Hf.
  - unfold keyStartsWith in Hp. destruct (Key f); discriminate.
Qed.

(** ** The cache service: hits, requests, addresses *)

Section ServiceEdges.

Variable env : Env.

(** X8: a 2xx answer other than 204 that carries an entry with a non-empty
    archive location makes the lookup return that entry as it is, after a
    single request. *)
Theorem rest_lookup_hit_returns_service_entry
    (fuel : nat) (keys paths : list string)
    (options : option InternalCacheOptions)
    (s3Options : option S3ClientConfig) (s3BucketName : option string)
    (response : TypedResponse ArtifactCacheEntry) (entry : ArtifactCacheEntry)
    (location : string) :
  objectStore s3Options s3BucketName = None ->
  getCacheServiceURL env <> "" ->
  getCacheEntryResponse env (lookupUrl env keys (versionOf env paths options))
    = Ok response ->
  statusCode response <> 204 ->
  isSuccessStatusCode (Some (statusCode response)) = true ->
  result response = Some entry ->
  archiveLocation entry = Some location ->
  location <> "" ->
  getCacheEntry env fuel keys paths options s3Options s3BucketName =
  ([Retried "getCacheEntry"
      (GetJson (lookupUrl env keys (versionOf env paths options)))],
   Ok (Some entry)).
Proof.
  intros Hs Hu Hr H204 Hok Hres Hloc Hne.
  rewrite getCacheEntry_rest by assumption. rewrite Hr.
  apply Z.eqb_neq in H204. rewrite H204, Hok, Hres, Hloc. simpl.
  unfold truthyString. destruct (String.eqb_spec location ""); [contradiction|].
  reflexivity.
Qed.

(** The address of the diagnostic listing of the caches. *)
Let diagnosticsUrl (keys : list string) : string :=
  getCacheServiceURL env ++ "_apis/artifactcache/" ++
  "caches?key=" ++
  encodeURIComponent env
    (match hd_error keys with Some k => k | None => "undefined" end).

(** X11: a lookup at the cache service sends the lookup request and nothing
    else, except that a 204 answer in debug mode is followed by the
    diagnostic listing of the caches for the primary key. *)
Theorem rest_lookup_requests
    (fuel : nat) (keys paths : list string)
    (options : option InternalCacheOptions)
    (s3Options : option S3ClientConfig) (s3BucketName : option string) :
  objectStore s3Options s3BucketName = None ->
  getCacheServiceURL env <> "" ->
  events (getCacheEntry env fuel keys paths options s3Options s3BucketName) =
  Retried "getCacheEntry"
    (GetJson (lookupUrl env keys (versionOf env paths options))) ::
  match getCacheEntryResponse env
          (lookupUrl env keys (versionOf env paths options)) with
  | Ok response =>
      if (statusCode response =? 204) && isDebug env
      then [Retried "listCache" (GetJson (diagnosticsUrl keys))]
      else []
  | _ => []
  end.
Proof.
  intros Hs Hu. rewrite getCacheEntry_rest by assumption.
  unfold prepend, events. simpl. f_equal.
  destruct (getCacheEntryResponse env _) as [response|e|]; try reflexivity.
  destruct (statusCode response =? 204); simpl.
  - destruct (isDebug env); [|reflexivity].
    unfold printCachesListForDiagnostics.
    rewrite getCacheApiUrl_ok by assumption.
    unfold retryTypedResponse, retry, request, bind, diagnosticsUrl. simpl.
    destruct (listCacheResponse env _); reflexivity.
  - repeat break_if; reflexivity.
Qed.

Lemma concat_comma (k1 k2 : string) (rest : list string) :
  String.concat "," ((k1 ++ "," ++ k2) :: rest) =
  String.concat "," (k1 :: k2 :: rest).
Proof.
  assert (A : forall a b c : string, (a ++ b) ++ c = a ++ b ++ c).
  { induction a as [|x a IH]; intros b c; simpl; [reflexivity|]. now rewrite IH. }
  destruct rest as [|r rest]; simpl; [reflexivity|].
  now rewrite !A.
Qed.

(** X10: the keys are joined with commas, so that a key with a comma in it
    cannot be told from two keys: with debugging off the lookup for
    [k1,k2] and the lookup for [k1] followed by [k2] are the same request
    with the same result. *)
Theorem rest_lookup_comma_in_key_is_two_keys
    (fuel : nat) (k1 k2 : string) (rest paths : list string)
    (options : option InternalCacheOptions)
    (s3Options : option S3ClientConfig) (s3BucketName : option string) :
  objectStore s3Options s3BucketName = None ->
  isDebug env = false ->
  getCacheEntry env fuel ((k1 ++ "," ++ k2) :: rest) paths options
    s3Options s3BucketName =
  getCacheEntry env fuel (k1 :: k2 :: rest) paths options s3Options s3BucketName.
Proof.
  intros Hs Hd. unfold getCacheEntry. rewrite Hs, Hd, concat_comma. reflexivity.
Qed.

(** X12: a reservation at the cache service is one request that carries the
    key, the version computed as for a lookup, and the size; the response
    that the retried request ends with is handed back as it is, whatever its
    status. *)
Theorem reserveCache_rest_hands_back_answer
    (key : string) (paths : list string)
    (options : option InternalCacheOptions)
    (s3Options : option S3ClientConfig) (s3BucketName : option string)
    (response : TypedResponse ReserveCacheResponse) :
  objectStore s3Options s3BucketName = None ->
  getCacheServiceURL env <> "" ->
  let body :=
    ReserveCacheRequest key (versionOf env paths options)
      (match options with Some o => cacheSize o | None => None end) in
  let url := getCacheServiceURL env ++ "_apis/artifactcache/" ++ "caches" in
  reserveCacheResponse env url body = Ok response ->
  reserveCache env key paths options s3Options s3BucketName =
  ([Retried "reserveCache" (PostJson url body)], Ok response).
Proof.
  intros Hs Hu body url Hr. unfold reserveCache. rewrite Hs.
  rewrite getCacheApiUrl_ok by assumption.
  unfold retryTypedResponse, retry, bind, request, ret.
  change (reserveCacheResponse env _ _) with (reserveCacheResponse env url body).
  rewrite Hr. reflexivity.
Qed.

(** X9: without an address of the cache service nothing is sent: lookup,
    reservation and commit throw, and so does the upload, with the message
    of [getCacheApiUrl] when the concurrency is a valid array length (from 0
    to 2^32 - 1). *)
Theorem no_service_url_nothing_sent
    (fuel : nat) (schedule : list nat) (keys paths : list string)
    (options : option InternalCacheOptions) (key : string) (cacheId : Z)
    (archivePath : string) (uploadOptions : option UploadOptions)
    (filesize concurrency maxChunkSize : Z)
    (s3Options : option S3ClientConfig) (s3BucketName : option string) :
  getCacheServiceURL env = "" ->
  objectStore s3Options s3BucketName = None ->
  uploadConcurrency (getUploadOptions env uploadOptions) = Some concurrency ->
  uploadChunkSize (getUploadOptions env uploadOptions) = Some maxChunkSize ->
  0 <= concurrency <= 4294967295 ->
  (exists msg,
     getCacheEntry env fuel keys paths options s3Options s3BucketName
       = ([], Throw msg)) /\
  (exists msg,
     reserveCache env key paths options s3Options s3BucketName
       = ([], Throw msg)) /\
  (exists msg, commitCache env cacheId filesize = ([], Throw msg)) /\
  uploadFile env fuel schedule cacheId archivePath key uploadOptions
    s3Options s3BucketName =
  ([], Throw "Cache Service Url not found, unable to restore cache.").
Proof.
  intros Hu Hs Hc Hm H0.
  assert (G : forall resource,
            getCacheApiUrl env resource =
            throw "Cache Service Url not found, unable to restore cache.").
  { intros resource. unfold getCacheApiUrl. now rewrite Hu. }
  repeat split.
  - unfold getCacheEntry. rewrite Hs, G. eexists. reflexivity.
  - unfold reserveCache. rewrite Hs, G. eexists. reflexivity.
  - unfold commitCache. rewrite G. eexists. reflexivity.
  - unfold uploadFile. rewrite Hc, Hm. simpl assertDefined. rewrite !bind_ret.
    rewrite (newArrayKeys_ok concurrency H0), bind_ret, Hs, G. reflexivity.
Qed.

End ServiceEdges.

(** ** The upload: the plan of the chunks, nothing to upload, no progress *)

Lemma chunkPlan_snoc (n : nat) (fileSize maxChunkSize offset : Z) :
  chunkPlan (S n) fileSize maxChunkSize offset =
  (chunkPlan n fileSize maxChunkSize offset ++
   [(offset + Z.of_nat n * maxChunkSize,
     offset + Z.of_nat n * maxChunkSize +
     Z.min (fileSize - (offset + Z.of_nat n * maxChunkSize)) maxChunkSize - 1)])%list.
Proof.
  revert offset. induction n as [|n IH]; intros offset.
  - simpl. repeat f_equal; lia.
  - change (chunkPlan (S (S n)) fileSize maxChunkSize offset)
      with ((offset, offset + Z.min (fileSize - offset) maxChunkSize - 1) ::
            chunkPlan (S n) fileSize maxChunkSize (offset + maxChunkSize)).
    rewrite IH. simpl chunkPlan at 2. simpl app.
    replace (offset + maxChunkSize + Z.of_nat n * maxChunkSize)
      with (offset + Z.of_nat (S n) * maxChunkSize) by lia.
    reflexivity.
Qed.

Section UploadEdges.

Variable env : Env.
Variables fileSize maxChunkSize : Z.
Variable resourceUrl : string.

Let loop := workerLoop env fileSize maxChunkSize resourceUrl.
Let start := startWorker env fileSize maxChunkSize resourceUrl.
Let complete := completeWorker env fileSize maxChunkSize resourceUrl.

(** One pass of a worker keeps the plan. *)
Lemma loop_plan (off : Z) (evs0 : list Event) (n : nat) :
  maxChunkSize >= 1 ->
  ranges evs0 = chunkPlan n fileSize maxChunkSize 0 ->
  off = Z.of_nat n * maxChunkSize ->
  (n = O \/ (Z.of_nat n - 1) * maxChunkSize < fileSize) ->
  exists n' : nat,
    ranges (evs0 ++ snd (loop off)) = chunkPlan n' fileSize maxChunkSize 0 /\
    snd (fst (loop off)) = Z.of_nat n' * maxChunkSize /\
    (n' = O \/ (Z.of_nat n' - 1) * maxChunkSize < fileSize).
Proof.
  intros Hm Hr Ho Hn. unfold loop, workerLoop.
  destruct (Z.ltb_spec off fileSize) as [Hlt|Hge]; simpl.
  - exists (S n).
    fold (chunkUpload env resourceUrl off
            (off + Z.min (fileSize - off) maxChunkSize - 1)).
    rewrite uploadChunk_events, ranges_app, Hr, chunkPlan_snoc by lia.
    simpl ranges. rewrite Ho. simpl Z.add.
    split; [reflexivity|]. split; [lia|]. right. lia.
  - exists n. rewrite app_nil_r. auto.
Qed.

Lemma startWorker_plan (p : Pool) :
  maxChunkSize >= 1 ->
  PlanInv fileSize maxChunkSize p -> PlanInv fileSize maxChunkSize (start p).
Proof.
  intros Hm (n & Hr & Ho & Hn). unfold start, startWorker. fold loop.
  destruct (loop_plan (offset p) (sent p) n Hm Hr Ho Hn) as (n' & Hr' & Ho' & Hn').
  destruct (loop (offset p)) as [[w off'] evs]. simpl in *.
  exists n'. simpl. auto.
Qed.

Lemma completeWorker_plan (i : nat) (p : Pool) :
  maxChunkSize >= 1 ->
  PlanInv fileSize maxChunkSize p -> PlanInv fileSize maxChunkSize (complete i p).
Proof.
  intros Hm (n & Hr & Ho & Hn). unfold complete, completeWorker. fold loop.
  destruct (nth_error (workers p) i) as [[[[]|e|]| | |]|];
    try (exists n; simpl; auto; fail).
  destruct (loop_plan (offset p) (sent p) n Hm Hr Ho Hn) as (n' & Hr' & Ho' & Hn').
  destruct (loop (offset p)) as [[w off'] evs]. simpl in *.
  exists n'. simpl. auto.
Qed.




(** When the offset cannot move forward every range that is claimed ends
    before it starts: its stream cannot be opened, nothing is sent and the
    chunk fails. *)
Hypothesis chunk_size_not_positive : maxChunkSize <= 0.
Hypothesis file_not_empty : 0 < fileSize.

Lemma loop_fails (off : Z) :
  off <= 0 ->
  exists msg, loop off = (InFlight (Throw msg), off + maxChunkSize, []).
Proof.
  intros Ho. unfold loop, workerLoop.
  destruct (Z.ltb_spec off fileSize); [|lia].
  fold (chunkUpload env resourceUrl off
          (off + Z.min (fileSize - off) maxChunkSize - 1)).
  destruct (uploadChunk_unsent env resourceUrl off
              (off + Z.min (fileSize - off) maxChunkSize - 1)) as (msg & ->);
    [left; lia|].
  exists msg. reflexivity.
Qed.

Lemma startWorker_blocked (p : Pool) :
  PoolBlocked p -> PoolBlocked (start p).
Proof.
  intros (Ho & Hs & Hr & Hw). unfold start, startWorker. fold loop.
  destruct (loop_fails (offset p) Ho) as (msg & ->).
  unfold PoolBlocked. simpl. rewrite Hs.
  split; [lia|]. split; [reflexivity|]. split; [assumption|].
  intros w Hin. apply in_app_or in Hin.
  destruct Hin as [Hin|[<-|[]]]; [now apply Hw | eauto].
Qed.

Lemma completeWorker_blocked (i : nat) (p : Pool) (r : Res unit) :
  PoolBlocked p ->
  nth_error (workers p) i = Some (InFlight r) ->
  PoolFailed (complete i p).
Proof.
  intros (Ho & Hs & Hr & Hw) N. unfold complete, completeWorker. rewrite N.
  destruct (Hw _ (nth_error_In _ _ N)) as (msg & E). injection E as ->.
  unfold PoolFailed. simpl. rewrite Hr.
  split; [assumption|]. split; [assumption|]. split; [discriminate|].
  intros w Hin.
  apply (In_setWorker env fileSize maxChunkSize resourceUrl) in Hin.
  destruct Hin as [->|Hin]; [right; eauto | left; now apply Hw].
Qed.

Lemma completeWorker_failed (i : nat) (p : Pool) :
  PoolFailed p -> PoolFailed (complete i p).
Proof.
  intros (Ho & Hs & Hr & Hw). unfold complete, completeWorker.
  destruct (nth_error (workers p) i) as [w|] eqn:N;
    [|split; [|split; [|split]]; assumption].
  destruct (Hw _ (nth_error_In _ _ N)) as [(msg & ->)|(msg & ->)];
    [|split; [|split; [|split]]; assumption].
  unfold PoolFailed. simpl.
  split; [assumption|]. split; [assumption|].
  split; [destruct (rejection p); [discriminate | congruence]|].
  intros w Hin.
  apply (In_setWorker env fileSize maxChunkSize resourceUrl) in Hin.
  destruct Hin as [->|Hin]; [right; eauto | now apply Hw].
Qed.

Lemma runPool_blocked (fuel : nat) (schedule : list nat) (p : Pool) :
  PoolBlocked p -> workers p <> [] ->
  PoolFailed (runPool env (S fuel) schedule fileSize maxChunkSize resourceUrl p).
Proof.
  intros Hp Hne. simpl.
  destruct (pickWorker (hd_error schedule) (workers p)) as [i|] eqn:P.
  - destruct (pickWorker_some _ _ _ P) as (r & N).
    apply runPool_keeps; [intros j q; apply completeWorker_failed|].
    now apply (completeWorker_blocked i p r).
  - exfalso.
    apply (pickWorker_none env fileSize maxChunkSize resourceUrl) in P.
    destruct Hp as (_ & _ & _ & Hw).
    destruct (workers p) as [|w ws]; [congruence|].
    destruct (Hw w (or_introl eq_refl)) as (msg & ->). discriminate.
Qed.

Lemma settle_failed (p : Pool) :
  PoolFailed p -> exists msg, settlePool p = ([], Throw msg).
Proof.
  intros (Ho & Hs & Hr & Hw). unfold settlePool. rewrite Hs.
  destruct (rejection p) as [msg|]; [eauto | congruence].
Qed.

End UploadEdges.

Section UploadFileEdges.

Variable env : Env.

Let chunkUrl (cacheId : Z) : string :=
  getCacheServiceURL env ++ "_apis/artifactcache/" ++ "caches/" ++
  numToString cacheId.

Lemma startPool_length (fileSize maxChunkSize : Z) (resourceUrl : string)
    (parallelUploads : list nat) :
  List.length
    (workers (startPool env fileSize maxChunkSize resourceUrl parallelUploads))
  = List.length parallelUploads.
Proof.
  exact (pool_length env O [] fileSize maxChunkSize resourceUrl parallelUploads).
Qed.

(** Where an upload whose chunks are all accepted comes to rest. *)
Lemma accepted_pool_final (fuel : nat) (schedule : list nat)
    (fileSize maxChunkSize : Z) (resourceUrl : string) (concurrency : Z) :
  maxChunkSize >= 1 -> 0 < fileSize -> concurrency >= 1 ->
  (Z.to_nat fileSize <= fuel)%nat ->
  let p := runPool env fuel schedule fileSize maxChunkSize resourceUrl
             (startPool env fileSize maxChunkSize resourceUrl
                (seq 0 (Z.to_nat concurrency))) in
  sentAccepted env resourceUrl (sent p) ->
  outcome (settlePool p) = Ok tt /\
  fileSize <= offset p /\
  PlanInv fileSize maxChunkSize p.
Proof.
  intros Hm Hf Hc Hfuel p Hok.
  assert (Hinv : PoolInv fileSize p) by (apply pool_inv; lia).
  assert (Hrest : inFlightCount (workers p) = O).
  { apply runPool_rest; [assumption|].
    pose proof (startPool_measure env fileSize maxChunkSize resourceUrl
                  (seq 0 (Z.to_nat concurrency)) Hm). lia. }
  assert (Hpok : PoolOk p) by (apply pool_ok; [lia | lia | exact Hok]).
  assert (Hplan : PlanInv fileSize maxChunkSize p).
  { apply runPool_keeps.
    - intros i p'. now apply completeWorker_plan.
    - unfold startPool. apply fold_start_keeps.
      + intros p'. now apply startWorker_plan.
      + exists O. simpl. auto. }
  split; [now apply settled_ok|]. split; [|exact Hplan].
  pose proof (pool_length env fuel schedule fileSize maxChunkSize resourceUrl
                (seq 0 (Z.to_nat concurrency))) as L.
  fold p in L. rewrite length_seq in L.
  destruct Hinv as (_ & _ & _ & Hd). destruct Hpok as (_ & Hw).
  destruct (workers p) as [|w ws] eqn:W; [simpl in L; lia|].
  apply (Hd w); [now left|].
  destruct (Hw w (or_introl eq_refl)) as [->| ->]; [reflexivity|].
  unfold inFlightCount in Hrest. simpl in Hrest. discriminate.
Qed.

Lemma plan_count (fileSize maxChunkSize : Z) (n : nat) :
  maxChunkSize >= 1 -> 0 < fileSize ->
  fileSize <= Z.of_nat n * maxChunkSize ->
  (n = O \/ (Z.of_nat n - 1) * maxChunkSize < fileSize) ->
  n = chunkCount fileSize maxChunkSize.
Proof.
  intros Hm Hf Hn Hl. unfold chunkCount.
  assert (Hq : Z.of_nat n = (fileSize + maxChunkSize - 1) / maxChunkSize).
  { apply (Z.div_unique _ _ _
             (fileSize + maxChunkSize - 1 - maxChunkSize * Z.of_nat n)).
    - left. destruct Hl as [->|Hl]; [simpl in Hn; lia|]. nia.
    - lia. }
  rewrite <- Hq. now rewrite Nat2Z.id.
Qed.

(** X13: when every chunk that is sent is accepted, the ranges handed to
    [uploadChunk] are, in this order, those of the plan: chunk after chunk of
    [maxChunkSize] bytes from byte 0 on, the last one cut at the end of the
    file; their number is the size of the file over the chunk size, rounded
    up.  Neither the number of workers (from 1 to 2^32 - 1) nor the order in
    which requests complete changes them. *)
Theorem upload_sends_the_planned_chunks
    (fuel : nat) (schedule : list nat) (cacheId : Z)
    (archivePath key : string) (options : option UploadOptions)
    (s3options : option S3ClientConfig) (s3BucketName : option string)
    (concurrency maxChunkSize : Z) :
  objectStore s3options s3BucketName = None ->
  getCacheServiceURL env <> "" ->
  uploadConcurrency (getUploadOptions env options) = Some concurrency ->
  uploadChunkSize (getUploadOptions env options) = Some maxChunkSize ->
  getArchiveFileSizeInBytes env archivePath > 0 ->
  maxChunkSize >= 1 ->
  1 <= concurrency <= 4294967295 ->
  let run := uploadFile env fuel schedule cacheId archivePath key options
               s3options s3BucketName in
  let fileSize := getArchiveFileSizeInBytes env archivePath in
  sentAccepted env (chunkUrl cacheId) (events run) ->
  (Z.to_nat fileSize <= fuel)%nat ->
  ranges (events run) =
  chunkPlan (chunkCount fileSize maxChunkSize) fileSize maxChunkSize 0.
Proof.
  intros Hs Hu Hc Hm Hf Hm1 Hc1 run fileSize. subst run.
  rewrite (uploadFile_rest env fuel schedule cacheId archivePath key options
             s3options s3BucketName concurrency maxChunkSize)
    by (assumption || lia).
  fold fileSize in Hf |- *.
  set (p := runPool env fuel schedule fileSize maxChunkSize (chunkUrl cacheId)
              (startPool env fileSize maxChunkSize (chunkUrl cacheId)
                 (seq 0 (Z.to_nat concurrency)))).
  change (events (settlePool p)) with (sent p). intros Hok Hfuel.
  destruct (accepted_pool_final fuel schedule fileSize maxChunkSize
              (chunkUrl cacheId) concurrency Hm1 ltac:(lia) ltac:(lia) Hfuel Hok)
    as (_ & Hoff & n & Hr & Ho & Hn).
  fold p in Hoff, Hr, Ho.
  change (ranges (sent p) =
          chunkPlan (chunkCount fileSize maxChunkSize) fileSize maxChunkSize 0).
  rewrite Hr.
  f_equal. apply plan_count; try assumption; lia.
Qed.


(** X15: with a chunk size of 0 or less every range that a worker claims
    ends before it starts, so that its stream cannot be opened: the upload
    of a non-empty archive sends no request at all and, as soon as one
    worker has come back, throws. *)
Theorem chunk_size_not_positive_sends_nothing
    (fuel : nat) (schedule : list nat) (cacheId : Z)
    (archivePath key : string) (options : option UploadOptions)
    (s3options : option S3ClientConfig) (s3BucketName : option string)
    (concurrency maxChunkSize : Z) :
  objectStore s3options s3BucketName = None ->
  getCacheServiceURL env <> "" ->
  uploadConcurrency (getUploadOptions env options) = Some concurrency ->
  uploadChunkSize (getUploadOptions env options) = Some maxChunkSize ->
  getArchiveFileSizeInBytes env archivePath > 0 ->
  maxChunkSize <= 0 ->
  1 <= concurrency <= 4294967295 ->
  exists msg,
    uploadFile env (S fuel) schedule cacheId archivePath key options
      s3options s3BucketName = ([], Throw msg).
Proof.
  intros Hs Hu Hc Hm Hf Hm0 Hc1.
  rewrite (uploadFile_rest env (S fuel) schedule cacheId archivePath key options
             s3options s3BucketName concurrency maxChunkSize)
    by (assumption || lia).
  set (fileSize := getArchiveFileSizeInBytes env archivePath) in *.
  set (p0 := startPool env fileSize maxChunkSize (chunkUrl cacheId)
               (seq 0 (Z.to_nat concurrency))).
  assert (H0 : PoolBlocked p0).
  { unfold p0, startPool. apply fold_start_keeps.
    - intros p'. apply startWorker_blocked; lia.
    - unfold PoolBlocked. simpl. split; [lia|]. split; [reflexivity|].
      split; [reflexivity|]. intros w []. }
  assert (Hw0 : List.length (workers p0) = Z.to_nat concurrency).
  { unfold p0. now rewrite startPool_length, length_seq. }
  apply settle_failed. apply runPool_blocked; try lia; [exact H0|].
  intros E. change (workers p0 = []) in E. rewrite E in Hw0. simpl in Hw0. lia.
Qed.

(** X16: a negative concurrency makes the upload throw before anything is
    sent, to the cache service or to the bucket. *)
Theorem negative_concurrency_throws
    (fuel : nat) (schedule : list nat) (cacheId : Z)
    (archivePath key : string) (options : option UploadOptions)
    (s3options : option S3ClientConfig) (s3BucketName : option string)
    (concurrency maxChunkSize : Z) :
  uploadConcurrency (getUploadOptions env options) = Some concurrency ->
  uploadChunkSize (getUploadOptions env options) = Some maxChunkSize ->
  concurrency < 0 ->
  uploadFile env fuel schedule cacheId archivePath key options s3options
    s3BucketName = ([], Throw "Invalid array length").
Proof.
  intros Hc Hm Hneg. unfold uploadFile. rewrite Hc, Hm. simpl assertDefined.
  rewrite !bind_ret, newArrayKeys_throws by now left. reflexivity.
Qed.

(** X23: a concurrency above 2^32 - 1, the longest array there is, makes the
    upload throw before anything is sent, to the cache service or to the
    bucket. *)
Theorem concurrency_above_array_length_throws
    (fuel : nat) (schedule : list nat) (cacheId : Z)
    (archivePath key : string) (options : option UploadOptions)
    (s3options : option S3ClientConfig) (s3BucketName : option string)
    (concurrency maxChunkSize : Z) :
  uploadConcurrency (getUploadOptions env options) = Some concurrency ->
  uploadChunkSize (getUploadOptions env options) = Some maxChunkSize ->
  4294967295 < concurrency ->
  uploadFile env fuel schedule cacheId archivePath key options s3options
    s3BucketName = ([], Throw "Invalid array length").
Proof.
  intros Hc Hm Hbig. unfold uploadFile. rewrite Hc, Hm. simpl assertDefined.
  rewrite !bind_ret, newArrayKeys_throws by now right. reflexivity.
Qed.

End UploadFileEdges.

(** ** [saveCache]: upload, then commit *)

Section SaveCacheEdges.

Variable env : Env.

Let chunkUrl (cacheId : Z) : string :=
  getCacheServiceURL env ++ "_apis/artifactcache/" ++ "caches/" ++
  numToString cacheId.


(** X18: with an object-store configuration and a bucket name, a
    concurrency from 1 to 2^32 - 1 and a chunk size of at least 5 MiB (the
    least queue and the least part that the multipart upload takes),
    [saveCache] hands one multipart upload to the bucket, of the archive
    under the cache key itself, with the concurrency as queue size and the
    chunk size as part size; nothing goes to the cache service, no commit
    follows, and a failure is thrown as [Cache upload failed because ...]. *)
Theorem saveCache_object_store_single_upload
    (fuel : nat) (schedule : list nat) (cacheId : Z)
    (archivePath key : string) (signedUploadURL : option string)
    (options : option UploadOptions)
    (s3Options : S3ClientConfig) (s3BucketName : string)
    (concurrency maxChunkSize : Z) :
  truthyBool (useAzureSdk (getUploadOptions env options)) = false ->
  uploadConcurrency (getUploadOptions env options) = Some concurrency ->
  uploadChunkSize (getUploadOptions env options) = Some maxChunkSize ->
  1 <= concurrency <= 4294967295 ->
  5242880 <= maxChunkSize ->
  s3BucketName <> "" ->
  saveCache env fuel schedule cacheId archivePath key signedUploadURL options
    (Some s3Options) (Some s3BucketName) =
  ([Direct (S3Upload s3BucketName key concurrency maxChunkSize)],
   match s3UploadDone env s3Options s3BucketName key with
   | Ok _ => Ok tt
   | Throw error => Throw ("Cache upload failed because " ++ error)
   | OutOfFuel => OutOfFuel
   end).
Proof.
  intros Ha Hc Hm H0 _ Hb. unfold saveCache, uploadFile. rewrite Ha, Hc, Hm.
  simpl assertDefined. rewrite !bind_ret, newArrayKeys_ok, bind_ret by lia.
  unfold objectStore. destruct (String.eqb_spec s3BucketName ""); [contradiction|].
  unfold uploadFileS3, request, rethrow, bind. simpl.
  destruct (s3UploadDone env s3Options s3BucketName key) as [[]|e|]; reflexivity.
Qed.

End SaveCacheEdges.

(** ** From the lookup in the bucket to the download *)

Section LookupThenDownload.

Variable env : Env.
Variable denv : DownloadEnv.

Lemma getCacheEntryS3_location (fuel : nat) (s3Options : S3ClientConfig)
    (s3BucketName : string) (keys paths : list string)
    (entry : ArtifactCacheEntry) :
  outcome (getCacheEntryS3 env fuel s3Options s3BucketName keys paths)
    = Ok (Some entry) ->
  archiveLocation entry = Some "https://s3.amazonaws.com/".
Proof.
  unfold getCacheEntryS3, bind, outcome.
  destruct (listObjects env fuel s3Options s3BucketName (hd_error keys)
              initialListState) as [l [out|e|]] eqn:L; try discriminate.
  pose proof (listObjects_served env s3Options s3BucketName (hd_error keys) fuel
                initialListState out) as S.
  unfold outcome in S. rewrite L in S.
  specialize (S (fun c H => match H with end) eq_refl).
  destruct out as [e|cs]; simpl.
  - intros [= <-]. destruct S as (obj & t & _ & _ & _ & ->). reflexivity.
  - destruct (searchRestoreKeyEntry (tl keys) cs) as [f|]; [|discriminate].
    destruct (LastModified f) as [t|]; [|discriminate].
    simpl. intros [= <-]. reflexivity.
Qed.

(** X20: an entry found in the bucket is downloaded from the bucket: given
    the same configuration, and as the host of the entry's placeholder
    address is not one of the blob store, [downloadCache] starts one
    download, of the object whose key is the entry's key.  (An entry without
    key, or with the empty key, is fetched from the placeholder address
    instead.) *)
Theorem bucket_hit_is_downloaded_from_bucket
    (fuel : nat) (s3Options : S3ClientConfig) (s3BucketName : string)
    (keys paths : list string) (entry : ArtifactCacheEntry)
    (archivePath : string) (options : option Download.DownloadOptions)
    (hostname : string) :
  outcome (getCacheEntryS3 env fuel s3Options s3BucketName keys paths)
    = Ok (Some entry) ->
  s3BucketName <> "" ->
  urlHostname denv "https://s3.amazonaws.com/" = Ok hostname ->
  endsWith hostname ".blob.core.windows.net" = false ->
  let call :=
    match cacheKey entry with
    | Some key =>
        if (key =? "")%string
        then downloadCacheHttpClient "https://s3.amazonaws.com/" archivePath
        else downloadCacheStorageS3 key archivePath s3Options s3BucketName
    | None => downloadCacheHttpClient "https://s3.amazonaws.com/" archivePath
    end in
  downloadCache denv entry archivePath options (Some s3Options)
    (Some s3BucketName) = ([call], downloadDone denv call).
Proof.
  intros Hl Hb Hh He call. apply getCacheEntryS3_location in Hl.
  unfold downloadCache. rewrite Hl, Hh. unfold chooseDownload.
  rewrite He. unfold objectStore.
  destruct (String.eqb_spec s3BucketName ""); [contradiction|].
  subst call. destruct (cacheKey entry) as [k|]; [|reflexivity].
  destruct (k =? "")%string; reflexivity.
Qed.

End LookupThenDownload.

(** ** Numbers in addresses and headers *)

Lemma numToString_inj (a b : Z) : numToString a = numToString b -> a = b.
Proof.
  unfold numToString. intros H. apply DecimalZ.to_int_inj.
  assert (N : forall z, NilZero.int_of_string (NilZero.string_of_int (Z.to_int z))
                        = Some (Z.to_int z)).
  { intros z. apply NilZero.isi; destruct z; simpl; try discriminate;
      intros [= E]; now apply DecimalPos.Unsigned.to_uint_nonnil in E. }
  apply (f_equal NilZero.int_of_string) in H. rewrite !N in H.
  now injection H.
Qed.

(** X21: different cache ids have different addresses: the chunks and the
    commit of one reservation never go to the address of another. *)
Theorem cache_ids_have_distinct_addresses (env : Env) (id1 id2 : Z) :
  getCacheServiceURL env <> "" ->
  getCacheApiUrl env ("caches/" ++ numToString id1) =
  getCacheApiUrl env ("caches/" ++ numToString id2) ->
  id1 = id2.
Proof.
  intros Hu H.
  rewrite (getCacheApiUrl_ok env _ Hu), (getCacheApiUrl_ok env _ Hu) in H.
  assert (E : forall a b : string, ret a = ret b -> a = b)
    by (unfold ret; intros a b [= ->]; reflexivity).
  apply E in H. do 3 apply append_inj_r in H. now apply numToString_inj.
Qed.

Lemma allDigits_string_of_uint (d : Decimal.uint) :
  allDigits (NilEmpty.string_of_uint d) = true.
Proof. induction d; simpl; auto. Qed.

(** A number prints as digits, after a minus sign when it is negative. *)
Lemma numToString_shape (z : Z) :
  exists c u, isDigit c = true /\ allDigits u = true /\
    (numToString z = String c u \/ numToString z = String "-"%char (String c u)).
Proof.
  assert (U : forall p, exists c u,
            isDigit c = true /\ allDigits u = true /\
            NilZero.string_of_uint (Pos.to_uint p) = String c u).
  { intros p. pose proof (DecimalPos.Unsigned.to_uint_nonnil p) as Hn.
    pose proof (allDigits_string_of_uint (Pos.to_uint p)) as Ha.
    destruct (Pos.to_uint p) as [|d|d|d|d|d|d|d|d|d|d]; [congruence|..];
      simpl in *; eexists; eexists; (split; [|split; [|reflexivity]]);
      try reflexivity; exact Ha. }
  unfold numToString. destruct z as [|p|p]; simpl.
  - exists "0"%char, ""%string. auto.
  - destruct (U p) as (c & u & Hc & Hu & E). exists c, u. rewrite E. auto.
  - destruct (U p) as (c & u & Hc & Hu & E). exists c, u. rewrite E. auto.
Qed.

(** Digits followed by something that is no digit: the digits are
    determined. *)
Lemma digits_then_other (u u' : string) (c c' : Ascii.ascii) (r r' : string) :
  allDigits u = true -> allDigits u' = true ->
  isDigit c = false -> isDigit c' = false ->
  u ++ String c r = u' ++ String c' r' ->
  u = u' /\ String c r = String c' r'.
Proof.
  revert u'. induction u as [|a u IH]; intros u' Hu Hu' Hc Hc' E.
  - destruct u' as [|a' u']; simpl in *; [auto|].
    injection E as -> _. apply andb_prop in Hu'. destruct Hu'. congruence.
  - destruct u' as [|a' u']; simpl in *.
    + injection E as -> _. apply andb_prop in Hu. destruct Hu. congruence.
    + injection E as -> E. apply andb_prop in Hu. apply andb_prop in Hu'.
      destruct (IH u') as [-> Hr]; tauto || auto.
Qed.

Lemma number_then_other (a b : Z) (c c' : Ascii.ascii) (r r' : string) :
  isDigit c = false -> isDigit c' = false ->
  numToString a ++ String c r = numToString b ++ String c' r' ->
  a = b /\ String c r = String c' r'.
Proof.
  intros Hc Hc' E.
  destruct (numToString_shape a) as (x & u & Hx & Hu & Ea).
  destruct (numToString_shape b) as (y & v & Hy & Hv & Eb).
  assert (G : numToString a = numToString b /\ String c r = String c' r').
  { destruct Ea as [Ea|Ea], Eb as [Eb|Eb]; rewrite Ea, Eb in E |- *.
    - destruct (digits_then_other (String x u) (String y v) c c' r r')
        as [-> ->]; simpl; try rewrite ?Hx, ?Hy; auto.
    - simpl in E. injection E as -> _. discriminate.
    - simpl in E. injection E as <- _. discriminate.
    - simpl in E. injection E as E.
      destruct (digits_then_other (String x u) (String y v) c c' r r')
        as [-> ->]; simpl; try rewrite ?Hx, ?Hy; auto.
      simpl. now f_equal. }
  destruct G as [G1 G2]. split; [now apply numToString_inj | exact G2].
Qed.

(** X22: the value of the [Content-Range] header determines the range: two
    ranges with the same header are the same range. *)
Theorem getContentRange_inj (start1 end1 start2 end2 : Z) :
  getContentRange start1 end1 = getContentRange start2 end2 ->
  start1 = start2 /\ end1 = end2.
Proof.
  unfold getContentRange. intros H. apply append_inj_r in H.
  change ("-" ++ numToString end1 ++ "/*")
    with (String "-"%char (numToString end1 ++ "/*")) in H.
  change ("-" ++ numToString end2 ++ "/*")
    with (String "-"%char (numToString end2 ++ "/*")) in H.
  apply number_then_other in H; [|reflexivity..].
  destruct H as [-> H]. split; [reflexivity|].
  injection H as H.
  change "/*" with (String "/"%char "*") in H.
  apply number_then_other in H; [|reflexivity..]. tauto.
Qed.

(** ** The further properties at concrete inputs *)

Lemma listing_error_is_thrown_witness :
  let env := s3Env page1 [] in
  paged (s3Send env exampleS3Options "bucket") None [page1] /\
  forallb (continues (hd_error ["k-v2"])) [page1] = true /\
  s3Send env exampleS3Options "bucket" (paramAfter None [page1])
    = Throw "InvalidToken" /\
  (List.length [page1] < 5)%nat /\
  getCacheEntryS3 env 5 exampleS3Options "bucket" ["k-v2"] [] =
  ([Direct (ListObjectsV2Command "bucket" None);
    Direct (ListObjectsV2Command "bucket" (Some "t1"))],
   Throw "Error from S3: InvalidToken").
Proof.
  intros env. split; [simpl; auto|]. split; [reflexivity|].
  split; [reflexivity|]. split; [simpl; lia|].
  apply (listing_error_is_thrown env exampleS3Options "bucket" ["k-v2"] []
           [page1] "InvalidToken" 5).
  - simpl; auto.
  - reflexivity.
  - reflexivity.
  - simpl; lia.
Defined.

Lemma truncated_page_without_new_token_is_listed_for_ever_witness :
  let env := s3Env stuckPage [] in
  paged (s3Send env exampleS3Options "bucket") None ([] ++ [stuckPage]) /\
  forallb (continues (hd_error ["k"])) ([] ++ [stuckPage]) = true /\
  followingParam (paramAfter None []) stuckPage = paramAfter None [] /\
  getCacheEntryS3 env (0 + 3) exampleS3Options "bucket" ["k"] [] =
  (repeat (Direct (ListObjectsV2Command "bucket" None)) 3, OutOfFuel).
Proof.
  intros env. split; [simpl; auto|]. split; [reflexivity|]. split; [reflexivity|].
  apply (truncated_page_without_new_token_is_listed_for_ever env
           exampleS3Options "bucket" ["k"] [] [] stuckPage 3).
  - simpl; auto.
  - reflexivity.
  - reflexivity.
Defined.

Lemma returned_key_is_primary_or_extends_fallback_witness :
  outcome (getCacheEntryS3 threePages 5 exampleS3Options "bucket"
             ["k-v3"; "k-v1"] [])
    = Ok (Some (s3Entry threePages (Some "k-v1") 9)) /\
  (cacheKey (s3Entry threePages (Some "k-v1") 9) = hd_error ["k-v3"; "k-v1"] \/
   exists k key, In k (tl ["k-v3"; "k-v1"]) /\
                 cacheKey (s3Entry threePages (Some "k-v1") 9) = Some key /\
                 String.prefix k key = true).
Proof.
  split; [reflexivity|].
  apply (returned_key_is_primary_or_extends_fallback threePages exampleS3Options
           "bucket" ["k-v3"; "k-v1"] [] 5).
  reflexivity.
Defined.

Lemma page_without_contents_ends_listing_witness :
  let env := s3Env page1 [("t1", hollowPage)] in
  paged (s3Send env exampleS3Options "bucket") None ([page1] ++ [hollowPage]) /\
  forallb (continues (hd_error ["z"; "k-v1"])) [page1] = true /\
  Contents hollowPage = None /\
  listed [page1] <> [] /\
  (List.length [page1] < 5)%nat /\
  getCacheEntryS3 env 5 exampleS3Options "bucket" ["z"; "k-v1"] [] =
  (listingEvents "bucket" None ([page1] ++ [hollowPage]),
   Ok (fallbackEntry env ["z"; "k-v1"] (listed [page1]))).
Proof.
  intros env. split; [simpl; auto|]. split; [reflexivity|].
  split; [reflexivity|]. split; [discriminate|]. split; [simpl; lia|].
  apply (page_without_contents_ends_listing env exampleS3Options "bucket"
           ["z"; "k-v1"] [] [page1] hollowPage 5).
  - simpl; auto.
  - reflexivity.
  - reflexivity.
  - discriminate.
  - simpl; lia.
Defined.

Lemma latest_prefix_match_ties_go_to_first_listed_witness :
  existsb (exact "a") tiedEntries = false /\
  prefixMatchesDated "a" tiedEntries = true /\
  _searchRestoreKeyEntry "a" tiedEntries = Some (object "ac" 7) /\
  exists l1 l2,
    filter (keyStartsWith "a") tiedEntries = (l1 ++ object "ac" 7 :: l2)%list /\
    (forall e, In e l1 -> lastModifiedTime e < lastModifiedTime (object "ac" 7)) /\
    (forall e, In e l2 -> lastModifiedTime e <= lastModifiedTime (object "ac" 7)).
Proof.
  split; [reflexivity|]. split; [reflexivity|]. split; [reflexivity|].
  apply (latest_prefix_match_ties_go_to_first_listed "a" tiedEntries
           (object "ac" 7)); reflexivity.
Defined.

Lemma empty_fallback_key_matches_any_key_witness :
  existsb (fun e => isSome (Key e)) tiedEntries = true /\
  exists found,
    _searchRestoreKeyEntry "" tiedEntries = Some found /\
    (forall after : list string,
       searchRestoreKeyEntry ("" :: after) tiedEntries = Some found) /\
    In found tiedEntries /\ Key found <> None.
Proof.
  split; [reflexivity|].
  apply (empty_fallback_key_matches_any_key tiedEntries). reflexivity.
Defined.

Lemma rest_lookup_hit_returns_service_entry_witness :
  let env := serviceEnv "https://cache.example/" hit conflict noContent in
  objectStore None None = None /\
  getCacheServiceURL env <> "" /\
  getCacheEntryResponse env (lookupUrl env ["k"] (versionOf env ["p"] None))
    = hit /\
  200 <> 204 /\
  isSuccessStatusCode (Some 200) = true /\
  archiveLocation serviceEntry = Some "https://cache.example/archives/1" /\
  "https://cache.example/archives/1" <> "" /\
  getCacheEntry env 0 ["k"] ["p"] None None None =
  ([Retried "getCacheEntry"
      (GetJson (lookupUrl env ["k"] (versionOf env ["p"] None)))],
   Ok (Some serviceEntry)).
Proof.
  intros env. split; [reflexivity|]. split; [discriminate|].
  split; [reflexivity|]. split; [discriminate|]. split; [reflexivity|].
  split; [reflexivity|]. split; [discriminate|].
  apply (rest_lookup_hit_returns_service_entry env 0 ["k"] ["p"] None None None
           {| statusCode := 200; result := Some serviceEntry; headers := [] |}
           serviceEntry "https://cache.example/archives/1");
    try reflexivity; discriminate.
Defined.

Lemma no_service_url_nothing_sent_witness :
  let env := serviceEnv "" hit conflict noContent in
  getCacheServiceURL env = "" /\
  objectStore None None = None /\
  uploadConcurrency (getUploadOptions env (chunksOfFour 2)) = Some 2 /\
  uploadChunkSize (getUploadOptions env (chunksOfFour 2)) = Some 4 /\
  0 <= 2 <= 4294967295 /\
  uploadFile env 5 [] 7 "cache.tzst" "k" (chunksOfFour 2) None None =
  ([], Throw "Cache Service Url not found, unable to restore cache.").
Proof.
  intros env. split; [reflexivity|]. split; [reflexivity|].
  split; [reflexivity|]. split; [reflexivity|]. split; [lia|].
  apply (no_service_url_nothing_sent env 5 [] ["k"] ["p"] None "k" 7
           "cache.tzst" (chunksOfFour 2) 10 2 4 None None);
    try reflexivity; lia.
Defined.

Lemma rest_lookup_comma_in_key_is_two_keys_witness :
  objectStore None None = None /\
  isDebug threePages = false /\
  getCacheEntry threePages 0 (("a" ++ "," ++ "b") :: ["c"]) ["p"] None None None =
  getCacheEntry threePages 0 ("a" :: "b" :: ["c"]) ["p"] None None None.
Proof.
  split; [reflexivity|]. split; [reflexivity|].
  apply (rest_lookup_comma_in_key_is_two_keys threePages 0 "a" "b" ["c"] ["p"]
           None None None); reflexivity.
Defined.

Lemma rest_lookup_requests_witness :
  objectStore None None = None /\
  getCacheServiceURL debugEnv <> "" /\
  events (getCacheEntry debugEnv 0 ["k"] ["p"] None None None) =
  [Retried "getCacheEntry"
     (GetJson "https://cache.example/_apis/artifactcache/cache?keys=k&version=p");
   Retried "listCache"
     (GetJson "https://cache.example/_apis/artifactcache/caches?key=k")].
Proof.
  split; [reflexivity|]. split; [discriminate|].
  apply (rest_lookup_requests debugEnv 0 ["k"] ["p"] None None None);
    [reflexivity | discriminate].
Defined.

Lemma reserveCache_rest_hands_back_answer_witness :
  let env := serviceEnv "https://cache.example/" hit conflict noContent in
  objectStore None None = None /\
  getCacheServiceURL env <> "" /\
  reserveCache env "k" ["p"] None None None =
  ([Retried "reserveCache"
      (PostJson "https://cache.example/_apis/artifactcache/caches"
         (ReserveCacheRequest "k" "p" None))],
   conflict).
Proof.
  intros env. split; [reflexivity|]. split; [discriminate|].
  apply (reserveCache_rest_hands_back_answer env "k" ["p"] None None None
           {| statusCode := 409; result := None; headers := [] |});
    [reflexivity | discriminate | reflexivity].
Defined.

Lemma upload_sends_the_planned_chunks_witness :
  let env := uploadEnv 204 in
  let run := uploadFile env 10 [1; 0; 1]%nat 7 "cache.tzst" "k" (chunksOfFour 2)
               None None in
  objectStore None None = None /\
  getCacheServiceURL env <> "" /\
  uploadConcurrency (getUploadOptions env (chunksOfFour 2)) = Some 2 /\
  uploadChunkSize (getUploadOptions env (chunksOfFour 2)) = Some 4 /\
  getArchiveFileSizeInBytes env "cache.tzst" > 0 /\
  4 >= 1 /\ 1 <= 2 <= 4294967295 /\
  sentAccepted env "https://cache.example/_apis/artifactcache/caches/7"
    (events run) /\
  (Z.to_nat (getArchiveFileSizeInBytes env "cache.tzst") <= 10)%nat /\
  ranges (events run) = [(0, 3); (4, 7); (8, 9)].
Proof.
  intros env run.
  assert (Hacc : sentAccepted env
                   "https://cache.example/_apis/artifactcache/caches/7"
                   (events run)).
  { intros s e Hin. vm_compute in Hin.
    destruct Hin as [E|[E|[E|[]]]]; injection E as <- <-; reflexivity. }
  split; [reflexivity|]. split; [discriminate|].
  split; [reflexivity|]. split; [reflexivity|]. split; [reflexivity|].
  split; [lia|]. split; [lia|]. split; [exact Hacc|]. split; [simpl; lia|].
  apply (upload_sends_the_planned_chunks env 10 [1; 0; 1]%nat 7 "cache.tzst" "k"
           (chunksOfFour 2) None None 2 4).
  - reflexivity.
  - discriminate.
  - reflexivity.
  - reflexivity.
  - reflexivity.
  - lia.
  - lia.
  - exact Hacc.
  - simpl; lia.
Defined.


Lemma chunk_size_not_positive_sends_nothing_witness :
  let env := uploadEnv 204 in
  let options := Some {| useAzureSdk := None;
                         uploadConcurrency := Some 2;
                         uploadChunkSize := Some 0 |} in
  objectStore None None = None /\
  getCacheServiceURL env <> "" /\
  uploadConcurrency (getUploadOptions env options) = Some 2 /\
  uploadChunkSize (getUploadOptions env options) = Some 0 /\
  getArchiveFileSizeInBytes env "cache.tzst" > 0 /\
  0 <= 0 /\ 1 <= 2 <= 4294967295 /\
  exists msg,
    uploadFile env 6 [] 7 "cache.tzst" "k" options None None = ([], Throw msg).
Proof.
  intros env options. split; [reflexivity|]. split; [discriminate|].
  split; [reflexivity|]. split; [reflexivity|]. split; [reflexivity|].
  split; [lia|]. split; [lia|].
  apply (chunk_size_not_positive_sends_nothing env 5 [] 7 "cache.tzst" "k"
           options None None 2 0).
  - reflexivity.
  - discriminate.
  - reflexivity.
  - reflexivity.
  - reflexivity.
  - lia.
  - lia.
Defined.

Lemma negative_concurrency_throws_witness :
  let env := uploadEnv 204 in
  uploadConcurrency (getUploadOptions env (chunksOfFour (-1))) = Some (-1) /\
  uploadChunkSize (getUploadOptions env (chunksOfFour (-1))) = Some 4 /\
  -1 < 0 /\
  uploadFile env 5 [] 7 "cache.tzst" "k" (chunksOfFour (-1))
    (Some exampleS3Options) (Some "bucket") = ([], Throw "Invalid array length").
Proof.
  intros env. split; [reflexivity|]. split; [reflexivity|]. split; [lia|].
  apply (negative_concurrency_throws env 5 [] 7 "cache.tzst" "k"
           (chunksOfFour (-1)) (Some exampleS3Options) (Some "bucket") (-1) 4);
    try reflexivity; lia.
Defined.


Lemma saveCache_object_store_single_upload_witness :
  let env := uploadEnv 204 in
  let options := Some {| useAzureSdk := None;
                         uploadConcurrency := Some 4;
                         uploadChunkSize := Some 33554432 |} in
  truthyBool (useAzureSdk (getUploadOptions env options)) = false /\
  uploadConcurrency (getUploadOptions env options) = Some 4 /\
  uploadChunkSize (getUploadOptions env options) = Some 33554432 /\
  1 <= 4 <= 4294967295 /\
  5242880 <= 33554432 /\
  "bucket" <> "" /\
  saveCache env 5 [] 7 "cache.tzst" "k" None options
    (Some exampleS3Options) (Some "bucket") =
  ([Direct (S3Upload "bucket" "k" 4 33554432)], Ok tt).
Proof.
  intros env options. split; [reflexivity|]. split; [reflexivity|].
  split; [reflexivity|]. split; [lia|]. split; [lia|]. split; [discriminate|].
  apply (saveCache_object_store_single_upload env 5 [] 7 "cache.tzst" "k" None
           options exampleS3Options "bucket" 4 33554432);
    try reflexivity; try discriminate; lia.
Defined.

Lemma concurrency_above_array_length_throws_witness :
  let env := uploadEnv 204 in
  uploadConcurrency (getUploadOptions env (chunksOfFour 4294967296))
    = Some 4294967296 /\
  uploadChunkSize (getUploadOptions env (chunksOfFour 4294967296)) = Some 4 /\
  4294967295 < 4294967296 /\
  uploadFile env 5 [] 7 "cache.tzst" "k" (chunksOfFour 4294967296)
    (Some exampleS3Options) (Some "bucket") = ([], Throw "Invalid array length").
Proof.
  intros env. split; [reflexivity|]. split; [reflexivity|]. split; [lia|].
  apply (concurrency_above_array_length_throws env 5 [] 7 "cache.tzst" "k"
           (chunksOfFour 4294967296) (Some exampleS3Options) (Some "bucket")
           4294967296 4);
    try reflexivity; lia.
Defined.

Lemma saveCache_commit_after_upload_witness :
  let env := uploadEnv 204 in
  existsb isCommit
    (events (saveCache env 10 [] 7 "cache.tzst" "k" None (chunksOfFour 2)
               None None)) = true /\
  (@None S3ClientConfig) = None /\
  outcome (uploadFile env 10 [] 7 "cache.tzst" "k" (chunksOfFour 2) None None)
    = Ok tt.
Proof.
  intros env. split; [reflexivity|].
  apply (saveCache_commit_after_upload env 10 [] 7 "cache.tzst" "k" None
           (chunksOfFour 2) None None).
  reflexivity.
Defined.

Lemma bucket_hit_is_downloaded_from_bucket_witness :
  outcome (getCacheEntryS3 threePages 5 exampleS3Options "bucket" ["k-v2"] [])
    = Ok (Some (s3Entry threePages (Some "k-v2") 1)) /\
  "bucket" <> "" /\
  urlHostname exampleDownloadEnv "https://s3.amazonaws.com/"
    = Ok "s3.amazonaws.com" /\
  endsWith "s3.amazonaws.com" ".blob.core.windows.net" = false /\
  downloadCache exampleDownloadEnv (s3Entry threePages (Some "k-v2") 1)
    "cache.tzst" None (Some exampleS3Options) (Some "bucket") =
  ([downloadCacheStorageS3 "k-v2" "cache.tzst" exampleS3Options "bucket"],
   Ok tt).
Proof.
  split; [reflexivity|]. split; [discriminate|]. split; [reflexivity|].
  split; [reflexivity|].
  apply (bucket_hit_is_downloaded_from_bucket threePages exampleDownloadEnv 5
           exampleS3Options "bucket" ["k-v2"] []
           (s3Entry threePages (Some "k-v2") 1) "cache.tzst" None
           "s3.amazonaws.com");
    try reflexivity; discriminate.
Defined.

Lemma cache_ids_have_distinct_addresses_witness :
  getCacheServiceURL threePages <> "" /\
  getCacheApiUrl threePages ("caches/" ++ numToString 7) =
  getCacheApiUrl threePages ("caches/" ++ numToString 7) /\
  7 = 7.
Proof.
  split; [discriminate|]. split; [reflexivity|].
  apply (cache_ids_have_distinct_addresses threePages 7 7);
    [discriminate | reflexivity].
Defined.

Lemma getContentRange_inj_witness :
  getContentRange 0 199 = "bytes 0-199/*" /\
  getContentRange 0 199 = getContentRange 0 199 /\
  0 = 0 /\ 199 = 199.
Proof.
  split; [reflexivity|]. split; [reflexivity|].
  apply (getContentRange_inj 0 199 0 199). reflexivity.
Defined.
